(** * qserver: the register context and state lifecycle of [QiskitSimulator]

    A shallow embedding of [src/qserver/qiskit_simulator.py].

    The simulator object is a record of its three mutable fields
    ([num_qubits], [context], [state]); a method is a function from the
    simulator before the call to an outcome (a value or a raised exception)
    and the simulator after it.  An exception does not roll anything back:
    the simulator returned next to [Raise] is the object as the method left
    it when the exception escaped.

    Everything qiskit does (building and running a circuit, sampling a
    measurement, the partial trace) is the interface [Backend]; a run that
    raises is the backend answering [None].  Python integers are [Z], the
    [context] dict is a [gmap Z RegisterEntry].  [dump] only formats text and
    is left out. *)

From stdpp Require Import base option list gmap strings.
From Stdlib Require Import ZArith Lia.

Open Scope Z_scope.

(** ** Data model *)

(** The gate objects the entry points build from [qiskit.circuit.library];
    [angle] stands for Python floats. [DiagonalGate a b] is
    [DiagonalGate([exp(1j*a), exp(1j*b)])]. *)
Inductive Gate (angle : Type) : Type :=
  | XGate | HGate | YGate | ZGate | TGate | SGate | CXGate | CCXGate
  | RZGate (r : angle)
  | DiagonalGate (a b : angle)
  | inverse (g : Gate angle)
  | control (g : Gate angle).

Arguments XGate {angle}.
Arguments HGate {angle}.
Arguments YGate {angle}.
Arguments ZGate {angle}.
Arguments TGate {angle}.
Arguments SGate {angle}.
Arguments CXGate {angle}.
Arguments CCXGate {angle}.
Arguments RZGate {angle} r.
Arguments DiagonalGate {angle} a b.
Arguments inverse {angle} g.
Arguments control {angle} g.

(** The two dataclasses a register can hold. *)
Inductive RegisterEntry : Type :=
  | QubitRegister (qubit : Z)
  | BitRegister (bit : bool).

Global Instance RegisterEntry_eq_dec : EqDecision RegisterEntry.
Proof. solve_decision. Defined.

Definition is_qubit (x : RegisterEntry) : bool :=
  match x with QubitRegister _ => true | BitRegister _ => false end.

Definition is_bit (x : RegisterEntry) : bool :=
  match x with QubitRegister _ => false | BitRegister _ => true end.

(** The fields of a [QiskitSimulator]; [St] is qiskit's [Statevector]. *)
Record Simulator (St : Type) : Type := mkSim {
  num_qubits : Z;
  context : gmap Z RegisterEntry;
  state : option St
}.

Arguments mkSim {St} _ _ _.
Arguments num_qubits {St} _.
Arguments context {St} _.
Arguments state {St} _.

(** The four messages [UsageError] is raised with. *)
Inductive UsageMsg : Type :=
  | DoesNotExist (reg : Z)
  | MustBeQubit (reg : Z)
  | MustBeBit (reg : Z)
  | AlreadyExists (reg : Z).

(** The register a message is about. *)
Definition msg_reg (m : UsageMsg) : Z :=
  match m with
  | DoesNotExist reg | MustBeQubit reg | MustBeBit reg | AlreadyExists reg => reg
  end.

(** What a method can raise.  [KeyError] and [AttributeError] are what
    Python raises on [context[reg]] for a missing key and on [.qubit] / [.bit]
    of the other dataclass; [BackendError] is any exception out of qiskit;
    [LoopBound] is the model running out of fuel in a [while] loop. *)
Inductive Exn : Type :=
  | UsageError (m : UsageMsg)
  | NameError (name : string)
  | KeyError (reg : Z)
  | AttributeError (attr : string)
  | BackendError
  | LoopBound.

Inductive Outcome (A : Type) : Type :=
  | Ok (a : A)
  | Raise (e : Exn).

Arguments Ok {A} a.
Arguments Raise {A} e.

(** ** The backend *)

(** What the simulator asks of qiskit, one field per circuit it builds.
    [Shot] is the randomness of one run with [shots=1].
    - [basis b] is [Statevector([0, 1])] for [b = true], [Statevector([1, 0])]
      otherwise;
    - [run_extend n st b] runs the circuit of [new_qubit]: [n] qubits, the
      first [n-1] initialised from [st], an X on qubit [n-1] when [b];
    - [run_measure w n st q] runs the circuit of [measure]: [n] qubits
      initialised from [st], qubit [q] measured; it answers the sampled bit
      and the saved statevector;
    - [partial_trace st q] is [partial_trace(st, [q]).to_statevector()],
      taken as total: it is only applied to what the measuring run saved.
      In the source it is called after [measure] has written the context and
      [num_qubits]; a raise there is outside this model, which is why the
      statements below about a [measure] that raises speak of [UsageError]
      or of the measuring run, never of any exception;
    - [run_gate n st g qs] runs the circuit of [_gate_operation];
    - [diagonal_entries_ok a b] is whether
      [DiagonalGate([exp(1j*a), exp(1j*b)])] can be built: the constructor
      raises unless both entries have modulus 1, which a non-finite angle
      breaks.
    A circuit cannot be initialised from a state of [None]: the methods
    raise [BackendError] there without asking the backend. *)
Class Backend (St Shot angle : Type) : Type := {
  basis : bool → St;
  run_extend : Z → St → bool → option St;
  run_measure : Shot → Z → St → Z → option (bool * St);
  partial_trace : St → Z → St;
  run_gate : Z → St → Gate angle → list Z → option St;
  diagonal_entries_ok : angle → angle → bool
}.

(** ** Methods as state transformers *)

Definition M (St A : Type) : Type := Simulator St → Outcome A * Simulator St.

Global Instance M_ret {St} : MRet (M St) := λ A a s, (Ok a, s).

Global Instance M_bind {St} : MBind (M St) := λ A B f m s,
  match m s with
  | (Ok a, s') => f a s'
  | (Raise e, s') => (Raise e, s')
  end.

Definition raise {St A} (e : Exn) : M St A := λ s, (Raise e, s).

Section simulator.
Context {St Shot angle : Type} `{!Backend St Shot angle}.

Local Abbreviation M := (M St).
Local Abbreviation Simulator := (Simulator St).

(** Field reads and writes. *)
Definition get_num_qubits : M Z := λ s, (Ok (num_qubits s), s).
Definition get_context : M (gmap Z RegisterEntry) := λ s, (Ok (context s), s).
Definition get_state : M (option St) := λ s, (Ok (state s), s).
Definition set_num_qubits (n : Z) : M unit :=
  λ s, (Ok tt, mkSim n (context s) (state s)).
Definition set_context (ctx : gmap Z RegisterEntry) : M unit :=
  λ s, (Ok tt, mkSim (num_qubits s) ctx (state s)).
Definition set_state (st : option St) : M unit :=
  λ s, (Ok tt, mkSim (num_qubits s) (context s) st).

(** [self.context[reg]] *)
Definition getitem (reg : Z) : M RegisterEntry :=
  ctx ← get_context;
  match ctx !! reg with
  | Some x => mret x
  | None => raise (KeyError reg)
  end.

(** [x.qubit] and [x.bit] *)
Definition attr_qubit (x : RegisterEntry) : M Z :=
  match x with
  | QubitRegister q => mret q
  | BitRegister _ => raise (AttributeError "qubit")
  end.

Definition attr_bit (x : RegisterEntry) : M bool :=
  match x with
  | BitRegister b => mret b
  | QubitRegister _ => raise (AttributeError "bit")
  end.

(** The result of a qiskit run, or the exception it raised. *)
Definition backend {A} (r : option A) : M A :=
  match r with
  | Some a => mret a
  | None => raise BackendError
  end.

(** [for x in l: f(x)] *)
Fixpoint for_each {A} (f : A → M unit) (l : list A) : M unit :=
  match l with
  | [] => mret tt
  | x :: l' => f x;; for_each f l'
  end.

(** [[f(x) for x in l]] *)
Fixpoint map_each {A B} (f : A → M B) (l : list A) : M (list B) :=
  match l with
  | [] => mret []
  | x :: l' => y ← f x; ys ← map_each f l'; mret (y :: ys)
  end.

Definition _check_qubit_reg_exists (reg : Z) : M unit :=
  ctx ← get_context;
  match ctx !! reg with
  | None => raise (UsageError (DoesNotExist reg))
  | Some x =>
      if is_qubit x then mret tt else raise (UsageError (MustBeQubit reg))
  end.

Definition _check_bit_reg_exists (reg : Z) : M unit :=
  ctx ← get_context;
  match ctx !! reg with
  | None => raise (UsageError (DoesNotExist reg))
  | Some x =>
      if is_bit x then mret tt else raise (UsageError (MustBeBit reg))
  end.

Definition reset : M unit :=
  set_num_qubits 0;;
  set_context ∅;;
  set_state None.

(** The object [__init__] leaves: [reset()] on a new instance. *)
Definition init : Simulator := mkSim 0 ∅ None.

(** The [while True] loop of [fresh], from [i]; [None] when the fuel runs
    out before a free identifier is met. *)
Fixpoint fresh_loop (fuel : nat) (ctx : gmap Z RegisterEntry) (i : Z) : option Z :=
  match fuel with
  | O => None
  | S fuel' =>
      if decide (is_Some (ctx !! i)) then fresh_loop fuel' ctx (i + 1)
      else Some i
  end.

Definition fresh : M Z :=
  ctx ← get_context;
  match fresh_loop (S (size ctx)) ctx 0 with
  | Some i => mret i
  | None => raise LoopBound
  end.

Definition new_qubit (reg : Z) (bvalue : bool) : M unit :=
  ctx ← get_context;
  (if decide (is_Some (ctx !! reg))
   then raise (UsageError (AlreadyExists reg)) else mret tt);;
  n ← get_num_qubits;
  set_num_qubits (n + 1);;
  st ← get_state;
  match st with
  | None => set_state (Some (basis bvalue))
  | Some st =>
      n ← get_num_qubits;
      st' ← backend (run_extend n st bvalue);
      set_state (Some st')
  end;;
  n ← get_num_qubits;
  ctx ← get_context;
  set_context (<[reg := QubitRegister (n - 1)]> ctx).

(** One step of the loop that closes the gap left by qubit [q].  The loop
    updates the [QubitRegister] objects in place; each was built by one
    [new_qubit] and is the value of one key only, and the measured object
    [q_reg] has left the dict by then, so the loop is a map over the values
    and [q] stays fixed while it runs. *)
Definition reindex (q : Z) (x : RegisterEntry) : RegisterEntry :=
  match x with
  | QubitRegister i => if decide (q < i) then QubitRegister (i - 1) else x
  | BitRegister _ => x
  end.

Definition measure (w : Shot) (reg : Z) : M unit :=
  _check_qubit_reg_exists reg;;
  q_reg ← getitem reg;
  q ← attr_qubit q_reg;
  n ← get_num_qubits;
  st ← get_state;
  '(meas_result, post) ← backend (st ≫= λ st, run_measure w n st q);
  ctx ← get_context;
  set_context (<[reg := BitRegister meas_result]> ctx);;
  m ← get_num_qubits;
  set_num_qubits (m - 1);;
  n' ← get_num_qubits;
  (if decide (0 < n') then set_state (Some (partial_trace post q))
   else set_state None);;
  ctx ← get_context;
  set_context (reindex q <$> ctx).

Definition read (w : Shot) (reg : Z) : M Z :=
  ctx ← get_context;
  (if decide (is_Some (ctx !! reg))
   then mret tt else raise (UsageError (DoesNotExist reg)));;
  _reg ← getitem reg;
  (if is_qubit _reg then measure w reg else mret tt);;
  x ← getitem reg;
  b ← attr_bit x;
  mret (Z.b2z b).

Definition discard (w : Shot) (reg : Z) : M unit :=
  ctx ← get_context;
  (if decide (is_Some (ctx !! reg))
   then mret tt else raise (UsageError (DoesNotExist reg)));;
  _reg ← getitem reg;
  (if is_qubit _reg then measure w reg else mret tt);;
  ctx ← get_context;
  match ctx !! reg with
  | Some _ => set_context (delete reg ctx)
  | None => raise (KeyError reg)
  end.

(** The name [b_reg] is bound nowhere: neither in [new_qubit_from_bit] nor
    at module level.  Evaluating it raises [NameError]. *)
Definition b_reg : M RegisterEntry := raise (NameError "b_reg").

Definition new_qubit_from_bit (reg : Z) : M unit :=
  _check_bit_reg_exists reg;;
  ctx ← get_context;
  match ctx !! reg with
  | Some _ => set_context (delete reg ctx)
  | None => raise (KeyError reg)
  end;;
  x ← b_reg;
  bvalue ← attr_bit x;
  new_qubit reg bvalue.

(** The loop over [controls]; [true] when it hit the [return]. *)
Fixpoint controls_loop (controls : list Z) : M bool :=
  match controls with
  | [] => mret false
  | c :: controls' =>
      _check_bit_reg_exists c;;
      c_reg ← getitem c;
      b ← attr_bit c_reg;
      if negb b then mret true else controls_loop controls'
  end.

Definition _gate_operation (gate : Gate angle) (regs controls : list Z) : M unit :=
  for_each _check_qubit_reg_exists regs;;
  returned ← controls_loop controls;
  if (returned : bool) then mret tt else
  qubits ← map_each (λ x, x_reg ← getitem x; attr_qubit x_reg) regs;
  n ← get_num_qubits;
  st ← get_state;
  st' ← backend (st ≫= λ st, run_gate n st gate qubits);
  set_state (Some st').

Definition gate_H (reg : Z) (controls : list Z) : M unit :=
  _gate_operation HGate [reg] controls.
Definition gate_X (reg : Z) (controls : list Z) : M unit :=
  _gate_operation XGate [reg] controls.
Definition gate_Y (reg : Z) (controls : list Z) : M unit :=
  _gate_operation YGate [reg] controls.
Definition gate_Z (reg : Z) (controls : list Z) : M unit :=
  _gate_operation ZGate [reg] controls.
Definition gate_T (reg : Z) (controls : list Z) : M unit :=
  _gate_operation TGate [reg] controls.
Definition gate_TInv (reg : Z) (controls : list Z) : M unit :=
  _gate_operation (inverse TGate) [reg] controls.
Definition gate_S (reg : Z) (controls : list Z) : M unit :=
  _gate_operation SGate [reg] controls.
Definition gate_SInv (reg : Z) (controls : list Z) : M unit :=
  _gate_operation (inverse SGate) [reg] controls.
Definition gate_CNOT (x y : Z) (controls : list Z) : M unit :=
  _gate_operation CXGate [x; y] controls.
Definition gate_Toffoli (x y z : Z) (controls : list Z) : M unit :=
  _gate_operation CCXGate [x; y; z] controls.
Definition gate_Rz (r : angle) (reg : Z) (controls : list Z) : M unit :=
  _gate_operation (RZGate r) [reg] controls.
(** The gate object is an argument of the call to [_gate_operation]: it is
    built, or its constructor raises, before the dispatch is entered. *)
Definition gate_Diag (a b : angle) (reg : Z) (controls : list Z) : M unit :=
  gate ← backend
    (if diagonal_entries_ok a b then Some (DiagonalGate a b) else None);
  _gate_operation gate [reg] controls.
Definition gate_CZ (x y : Z) (controls : list Z) : M unit :=
  _gate_operation (control ZGate) [x; y] controls.
Definition gate_CY (x y : Z) (controls : list Z) : M unit :=
  _gate_operation (control YGate) [x; y] controls.
Definition gate_CRz (r : angle) (x y : Z) (controls : list Z) : M unit :=
  _gate_operation (control (RZGate r)) [x; y] controls.

(** ** Sequences of calls *)

(** A call of one public method with its arguments; a call that may
    measure carries the randomness of its run. *)
Inductive Op : Type :=
  | OpReset
  | OpFresh
  | OpNewQubit (reg : Z) (bvalue : bool)
  | OpNewQubitFromBit (reg : Z)
  | OpMeasure (w : Shot) (reg : Z)
  | OpRead (w : Shot) (reg : Z)
  | OpDiscard (w : Shot) (reg : Z)
  | OpH (reg : Z) (controls : list Z)
  | OpX (reg : Z) (controls : list Z)
  | OpY (reg : Z) (controls : list Z)
  | OpZ (reg : Z) (controls : list Z)
  | OpT (reg : Z) (controls : list Z)
  | OpTInv (reg : Z) (controls : list Z)
  | OpS (reg : Z) (controls : list Z)
  | OpSInv (reg : Z) (controls : list Z)
  | OpCNOT (x y : Z) (controls : list Z)
  | OpToffoli (x y z : Z) (controls : list Z)
  | OpRz (r : angle) (reg : Z) (controls : list Z)
  | OpDiag (a b : angle) (reg : Z) (controls : list Z)
  | OpCZ (x y : Z) (controls : list Z)
  | OpCY (x y : Z) (controls : list Z)
  | OpCRz (r : angle) (x y : Z) (controls : list Z).

(** What a call hands back. *)
Inductive Value : Type :=
  | VNone
  | VRegister (reg : Z)
  | VInt (i : Z).

Definition returns_none (m : M unit) : M Value := m;; mret VNone.

Definition exec (op : Op) : M Value :=
  match op with
  | OpReset => returns_none reset
  | OpFresh => i ← fresh; mret (VRegister i)
  | OpNewQubit reg bvalue => returns_none (new_qubit reg bvalue)
  | OpNewQubitFromBit reg => returns_none (new_qubit_from_bit reg)
  | OpMeasure w reg => returns_none (measure w reg)
  | OpRead w reg => i ← read w reg; mret (VInt i)
  | OpDiscard w reg => returns_none (discard w reg)
  | OpH reg cs => returns_none (gate_H reg cs)
  | OpX reg cs => returns_none (gate_X reg cs)
  | OpY reg cs => returns_none (gate_Y reg cs)
  | OpZ reg cs => returns_none (gate_Z reg cs)
  | OpT reg cs => returns_none (gate_T reg cs)
  | OpTInv reg cs => returns_none (gate_TInv reg cs)
  | OpS reg cs => returns_none (gate_S reg cs)
  | OpSInv reg cs => returns_none (gate_SInv reg cs)
  | OpCNOT x y cs => returns_none (gate_CNOT x y cs)
  | OpToffoli x y z cs => returns_none (gate_Toffoli x y z cs)
  | OpRz r reg cs => returns_none (gate_Rz r reg cs)
  | OpDiag a b reg cs => returns_none (gate_Diag a b reg cs)
  | OpCZ x y cs => returns_none (gate_CZ x y cs)
  | OpCY x y cs => returns_none (gate_CY x y cs)
  | OpCRz r x y cs => returns_none (gate_CRz r x y cs)
  end.

(** The calls of [ops] one after the other, stopping at the first that
    raises; the values of the calls that returned, in order. *)
Definition run (ops : list Op) : M (list Value) := map_each exec ops.

End simulator.

Arguments Op : clear implicits.

(** ** A backend for basis states

    A statevector that is a computational basis state is the list of its
    qubits' bits, qubit 0 first.  Measurement is then deterministic, the
    gates that permute basis states act on the bits, the diagonal gates leave
    the list alone (a phase), and a gate that would leave the basis states
    (Hadamard) is refused.  A run whose circuit does not fit the state is
    refused as qiskit refuses it. *)
Module Classical.

Definition bit_at (st : list bool) (q : Z) : bool :=
  default false (st !! Z.to_nat q).

Definition flip (q : Z) (st : list bool) : list bool :=
  alter negb (Z.to_nat q) st.

Definition fits (n : Z) (st : list bool) (qs : list Z) : bool :=
  bool_decide (Z.of_nat (length st) = n ∧ Forall (λ q, 0 ≤ q < n) qs ∧ NoDup qs).

Fixpoint diagonal (g : Gate unit) : bool :=
  match g with
  | ZGate | TGate | SGate | RZGate _ | DiagonalGate _ _ => true
  | inverse g' => diagonal g'
  | control g' => diagonal g'
  | _ => false
  end.

Definition apply (g : Gate unit) (qs : list Z) (st : list bool) : option (list bool) :=
  match g, qs with
  | XGate, [q] => Some (flip q st)
  | YGate, [q] => Some (flip q st)
  | CXGate, [c; t] => Some (if bit_at st c then flip t st else st)
  | control YGate, [c; t] => Some (if bit_at st c then flip t st else st)
  | CCXGate, [c1; c2; t] =>
      Some (if bit_at st c1 && bit_at st c2 then flip t st else st)
  | _, _ => if diagonal g then Some st else None
  end.

Global Instance classical : Backend (list bool) unit unit := {|
  basis b := [b];
  run_extend n st b :=
    if bool_decide (Z.of_nat (length st) = n - 1) then Some (st ++ [b]) else None;
  run_measure _ n st q :=
    if fits n st [q] then Some (bit_at st q, st) else None;
  partial_trace st q := delete (Z.to_nat q) st;
  run_gate n st g qs := if fits n st qs then apply g qs st else None;
  diagonal_entries_ok _ _ := true
|}.

Definition start : Simulator (list bool) := init.

End Classical.

(** ** Predicates on a simulator *)

Section predicates.
Context {St : Type}.
Implicit Types (s : Simulator St) (ctx : gmap Z RegisterEntry).

(** The register [x] holds a qubit / the register [c] holds the bit [b]. *)
Definition holds_qubit ctx (x : Z) : Prop :=
  ∃ q, ctx !! x = Some (QubitRegister q).

Definition holds_bit ctx (b : bool) (c : Z) : Prop :=
  ctx !! c = Some (BitRegister b).

(** The number of [QubitRegister] entries of a context. *)
Definition count_qubits ctx : nat :=
  size (filter (λ kv, is_qubit kv.2 = true) ctx).

(** The qubit indices of the context are exactly [0 .. num_qubits - 1]. *)
Definition indices_exact s : Prop :=
  ∀ i, (∃ reg, context s !! reg = Some (QubitRegister i)) ↔ 0 ≤ i < num_qubits s.

(** No two registers hold the same qubit index. *)
Definition indices_distinct s : Prop :=
  ∀ r1 r2 i,
    context s !! r1 = Some (QubitRegister i) →
    context s !! r2 = Some (QubitRegister i) → r1 = r2.

Definition counter_exact s : Prop :=
  num_qubits s = Z.of_nat (count_qubits (context s)).

Definition dense s : Prop :=
  indices_exact s ∧ indices_distinct s ∧ counter_exact s.

(** The statevector is absent only when no qubit is counted. *)
Definition state_absent_ok s : Prop :=
  state s = None → num_qubits s = 0.

Definition consistent s : Prop := dense s ∧ state_absent_ok s.

End predicates.

(** What the round trip of [new_qubit] and [read] asks of the backend: a
    qubit just prepared in a basis state is measured to that state's bit,
    whatever the run's randomness; on the one-qubit statevectors built
    without a run, and on the last qubit of what [run_extend] answers. *)
Definition measures_prepared_bit {St Shot angle} `{!Backend St Shot angle} : Prop :=
  (∀ (w : Shot) b, ∃ post, run_measure w 1 (basis b) 0 = Some (b, post)) ∧
  (∀ (w : Shot) n st b st',
     run_extend n st b = Some st' →
     ∃ post, run_measure w n st' (n - 1) = Some (b, post)).

(** The statevector is present only when a qubit is counted. *)
Definition state_present_ok {St} (s : Simulator St) : Prop :=
  is_Some (state s) → 0 < num_qubits s.

(** The targets and the controls a gate entry point hands to the
    dispatch. *)
Definition gate_arguments {Shot angle} (op : Op Shot angle)
    : option (list Z * list Z) :=
  match op with
  | OpH reg cs | OpX reg cs | OpY reg cs | OpZ reg cs | OpT reg cs
  | OpTInv reg cs | OpS reg cs | OpSInv reg cs
  | OpRz _ reg cs | OpDiag _ _ reg cs => Some ([reg], cs)
  | OpCNOT x y cs | OpCZ x y cs | OpCY x y cs | OpCRz _ x y cs =>
      Some ([x; y], cs)
  | OpToffoli x y z cs => Some ([x; y; z], cs)
  | _ => None
  end.

(** Whether an entry point gets as far as the dispatch: [gate_Diag] builds
    its gate object first, the other gates are built from no angle or from
    one that the constructor does not check. *)
Definition gate_is_built {St Shot angle} `{!Backend St Shot angle}
    (op : Op Shot angle) : bool :=
  match op with
  | OpDiag a b _ _ => diagonal_entries_ok a b
  | _ => true
  end.

(** The registers of [rbs], allocated in order with their initial bits. *)
Definition allocations {Shot angle} (rbs : list (Z * bool)) : list (Op Shot angle) :=
  (λ rb, OpNewQubit rb.1 rb.2) <$> rbs.

(** ** A backend with a capacity

    The basis-state backend, except that a circuit of more than [limit]
    qubits is refused when a qubit is added, as a simulator refuses a
    circuit that does not fit its memory. *)
Module Capped.

Definition limit : Z := 2.

Definition capped : Backend (list bool) unit unit := {|
  basis := basis (Backend := Classical.classical);
  run_extend n st b :=
    if bool_decide (n ≤ limit)
    then run_extend (Backend := Classical.classical) n st b else None;
  run_measure := run_measure (Backend := Classical.classical);
  partial_trace := partial_trace (Backend := Classical.classical);
  run_gate := run_gate (Backend := Classical.classical);
  diagonal_entries_ok := diagonal_entries_ok (Backend := Classical.classical)
|}.

End Capped.

(** ** A backend with non-finite angles

    Angles are floats that may be non-finite ([None]); a [DiagonalGate] is
    built from finite angles only.  Preparation and measurement are those of
    the basis-state backend; no gate is run. *)
Module Finite.

Definition finite : Backend (list bool) unit (option Z) := {|
  basis := basis (Backend := Classical.classical);
  run_extend := run_extend (Backend := Classical.classical);
  run_measure := run_measure (Backend := Classical.classical);
  partial_trace := partial_trace (Backend := Classical.classical);
  run_gate _ _ _ _ := None;
  diagonal_entries_ok a b := bool_decide (is_Some a ∧ is_Some b)
|}.

End Finite.

(** ** The methods, call by call *)

Ltac unfold_M :=
  unfold getitem, attr_qubit, attr_bit, backend, _check_qubit_reg_exists,
    _check_bit_reg_exists, get_num_qubits, get_context, get_state,
    set_num_qubits, set_context, set_state, raise, mbind, mret, M_bind, M_ret;
  simpl.

Section equations.
Context {St Shot angle : Type} `{!Backend St Shot angle}.
Implicit Types (s : Simulator St) (w : Shot) (reg : Z).

Lemma check_qubit_eq reg s :
  _check_qubit_reg_exists reg s =
  match context s !! reg with
  | None => (Raise (UsageError (DoesNotExist reg)), s)
  | Some (BitRegister _) => (Raise (UsageError (MustBeQubit reg)), s)
  | Some (QubitRegister _) => (Ok tt, s)
  end.
Proof. unfold_M. by destruct (context s !! reg) as [[]|]. Qed.

Lemma check_bit_eq reg s :
  _check_bit_reg_exists reg s =
  match context s !! reg with
  | None => (Raise (UsageError (DoesNotExist reg)), s)
  | Some (QubitRegister _) => (Raise (UsageError (MustBeBit reg)), s)
  | Some (BitRegister _) => (Ok tt, s)
  end.
Proof. unfold_M. by destruct (context s !! reg) as [[]|]. Qed.

Lemma new_qubit_eq reg bvalue s :
  new_qubit reg bvalue s =
  match context s !! reg with
  | Some _ => (Raise (UsageError (AlreadyExists reg)), s)
  | None =>
      let n := num_qubits s + 1 in
      let ctx' := <[reg := QubitRegister (n - 1)]> (context s) in
      match state s with
      | None => (Ok tt, mkSim n ctx' (Some (basis bvalue)))
      | Some st =>
          match run_extend n st bvalue with
          | Some st' => (Ok tt, mkSim n ctx' (Some st'))
          | None => (Raise BackendError, mkSim n (context s) (Some st))
          end
      end
  end.
Proof.
  unfold new_qubit. unfold_M.
  destruct (decide (is_Some (context s !! reg))) as [[x Hx]|Hx]; simpl.
  - by rewrite Hx.
  - apply eq_None_not_Some in Hx. rewrite Hx.
    destruct (state s) as [st|]; simpl; [|done].
    by destruct (run_extend _ st bvalue).
Qed.

Lemma measure_eq w reg s :
  measure w reg s =
  match context s !! reg with
  | None => (Raise (UsageError (DoesNotExist reg)), s)
  | Some (BitRegister _) => (Raise (UsageError (MustBeQubit reg)), s)
  | Some (QubitRegister q) =>
      match
        match state s with
        | Some st => run_measure w (num_qubits s) st q
        | None => None
        end
      with
      | None => (Raise BackendError, s)
      | Some (meas_result, post) =>
          (Ok tt,
           mkSim (num_qubits s - 1)
             (reindex q <$> <[reg := BitRegister meas_result]> (context s))
             (if decide (0 < num_qubits s - 1)
              then Some (partial_trace post q) else None))
      end
  end.
Proof.
  unfold measure. unfold_M.
  destruct (context s !! reg) as [[q|b]|] eqn:E; simpl; try done.
  rewrite E.
  destruct (state s) as [st|]; simpl; [|done].
  destruct (run_measure w (num_qubits s) st q) as [[o post]|]; simpl; [|done].
  by destruct (decide _).
Qed.

Lemma lookup_measured q reg x (ctx : gmap Z RegisterEntry) r :
  (reindex q <$> <[reg := x]> ctx) !! r =
  if decide (reg = r) then Some (reindex q x) else reindex q <$> ctx !! r.
Proof. by rewrite lookup_fmap, lookup_insert; destruct (decide _). Qed.

Lemma read_eq w reg s :
  read w reg s =
  match context s !! reg with
  | None => (Raise (UsageError (DoesNotExist reg)), s)
  | Some (BitRegister b) => (Ok (Z.b2z b), s)
  | Some (QubitRegister q) =>
      match
        match state s with
        | Some st => run_measure w (num_qubits s) st q
        | None => None
        end
      with
      | None => (Raise BackendError, s)
      | Some (meas_result, _) => (Ok (Z.b2z meas_result), (measure w reg s).2)
      end
  end.
Proof.
  unfold read.
  unfold mbind at 1 2 3 4, M_bind, get_context; simpl.
  destruct (decide (is_Some (context s !! reg))) as [[x Hx]|Hx]; simpl.
  - unfold getitem at 1. unfold_M. rewrite Hx.
    destruct x as [q|b]; simpl.
    + rewrite measure_eq, Hx.
      destruct (state s) as [st|]; simpl; [|done].
      destruct (run_measure w (num_qubits s) st q) as [[o post]|]; simpl; [|done].
      by rewrite lookup_measured, decide_True.
    + by rewrite Hx.
  - apply eq_None_not_Some in Hx. by rewrite Hx.
Qed.

Lemma discard_eq w reg s :
  discard w reg s =
  match context s !! reg with
  | None => (Raise (UsageError (DoesNotExist reg)), s)
  | Some (BitRegister b) =>
      (Ok tt, mkSim (num_qubits s) (delete reg (context s)) (state s))
  | Some (QubitRegister q) =>
      match measure w reg s with
      | (Ok _, s') =>
          (Ok tt, mkSim (num_qubits s') (delete reg (context s')) (state s'))
      | (Raise e, s') => (Raise e, s')
      end
  end.
Proof.
  unfold discard.
  unfold mbind at 1 2 3 4, M_bind, get_context; simpl.
  destruct (decide (is_Some (context s !! reg))) as [[x Hx]|Hx]; simpl.
  - unfold getitem at 1. unfold_M. rewrite Hx.
    destruct x as [q|b]; simpl.
    + rewrite measure_eq, Hx.
      destruct (state s) as [st|]; simpl; [|done].
      destruct (run_measure w (num_qubits s) st q) as [[o post]|]; simpl; [|done].
      by rewrite lookup_measured, decide_True.
    + by rewrite Hx.
  - apply eq_None_not_Some in Hx. by rewrite Hx.
Qed.

Lemma new_qubit_from_bit_eq reg s :
  new_qubit_from_bit reg s =
  match context s !! reg with
  | None => (Raise (UsageError (DoesNotExist reg)), s)
  | Some (QubitRegister _) => (Raise (UsageError (MustBeBit reg)), s)
  | Some (BitRegister _) =>
      (Raise (NameError "b_reg"),
       mkSim (num_qubits s) (delete reg (context s)) (state s))
  end.
Proof.
  unfold new_qubit_from_bit, b_reg. unfold_M.
  destruct (context s !! reg) as [[q|b]|] eqn:E; simpl; try done.
  by rewrite E.
Qed.

End equations.

(** ** The gate dispatcher *)

Section gates.
Context {St Shot angle : Type} `{!Backend St Shot angle}.
Implicit Types (s : Simulator St) (regs controls : list Z) (g : Gate angle).

Lemma bind_eq {A B} (m : M St A) (f : A → M St B) s :
  (m ≫= f) s =
  match m s with
  | (Ok a, s') => f a s'
  | (Raise e, s') => (Raise e, s')
  end.
Proof. reflexivity. Qed.

Lemma getitem_eq x s :
  getitem x s =
  match context s !! x with
  | Some x_reg => (Ok x_reg, s)
  | None => (Raise (KeyError x), s)
  end.
Proof. unfold_M. by destruct (context s !! x). Qed.

Lemma check_qubit_ok x s :
  holds_qubit (context s) x → _check_qubit_reg_exists x s = (Ok tt, s).
Proof. intros [q Hq]. by rewrite check_qubit_eq, Hq. Qed.

Lemma check_qubit_bad x s :
  ¬ holds_qubit (context s) x →
  ∃ m, msg_reg m = x ∧
       _check_qubit_reg_exists x s = (Raise (UsageError m), s).
Proof.
  intros Hx. rewrite check_qubit_eq.
  destruct (context s !! x) as [[q|b]|] eqn:E.
  - destruct Hx. by exists q.
  - by exists (MustBeQubit x).
  - by exists (DoesNotExist x).
Qed.

Lemma holds_qubit_dec (ctx : gmap Z RegisterEntry) x :
  holds_qubit ctx x ∨ ¬ holds_qubit ctx x.
Proof.
  unfold holds_qubit. destruct (ctx !! x) as [[q|b]|]; [left; eauto|right..];
    intros [q' Hq']; discriminate.
Qed.

Lemma check_targets_ok regs s :
  Forall (holds_qubit (context s)) regs →
  for_each _check_qubit_reg_exists regs s = (Ok tt, s).
Proof.
  induction 1 as [|x regs Hx _ IH]; [done|].
  simpl. by rewrite bind_eq, check_qubit_ok.
Qed.

Lemma check_targets_bad regs s :
  Exists (λ x, ¬ holds_qubit (context s) x) regs →
  ∃ m, msg_reg m ∈ regs ∧ ¬ holds_qubit (context s) (msg_reg m) ∧
       for_each _check_qubit_reg_exists regs s = (Raise (UsageError m), s).
Proof.
  induction regs as [|x regs IH]; intros Hex; [by apply Exists_nil in Hex|].
  simpl. rewrite bind_eq.
  destruct (holds_qubit_dec (context s) x) as [Hx|Hx].
  - rewrite check_qubit_ok by done.
    destruct IH as (m & Hin & Hbad & Hm).
    { apply Exists_cons in Hex as [?|?]; done. }
    exists m. split_and!; [by apply list_elem_of_further|done..].
  - destruct (check_qubit_bad x s Hx) as (m & <- & ->).
    exists m. split_and!; [by apply list_elem_of_here|done..].
Qed.

Lemma controls_loop_cons c controls s :
  controls_loop (c :: controls) s =
  match context s !! c with
  | None => (Raise (UsageError (DoesNotExist c)), s)
  | Some (QubitRegister _) => (Raise (UsageError (MustBeBit c)), s)
  | Some (BitRegister false) => (Ok true, s)
  | Some (BitRegister true) => controls_loop controls s
  end.
Proof.
  simpl. rewrite bind_eq, check_bit_eq.
  destruct (context s !! c) as [[q|b]|] eqn:E; try done.
  unfold getitem. unfold_M. rewrite E. by destruct b.
Qed.

Lemma controls_loop_true_prefix pre controls s :
  Forall (holds_bit (context s) true) pre →
  controls_loop (pre ++ controls) s = controls_loop controls s.
Proof.
  induction 1 as [|c pre Hc _ IH]; [done|].
  rewrite <- app_comm_cons, controls_loop_cons. by rewrite Hc.
Qed.

Lemma controls_loop_all_true controls s :
  Forall (holds_bit (context s) true) controls →
  controls_loop controls s = (Ok false, s).
Proof.
  intros Hall. rewrite <- (app_nil_r controls).
  by rewrite controls_loop_true_prefix.
Qed.

(** The loop over the controls writes nothing, and raises nothing but
    [UsageError]. *)
Lemma controls_loop_pure controls s :
  (∃ returned, controls_loop controls s = (Ok returned, s)) ∨
  (∃ m, controls_loop controls s = (Raise (UsageError m), s)).
Proof.
  induction controls as [|c controls IH]; [left; by exists false|].
  rewrite controls_loop_cons.
  destruct (context s !! c) as [[q|[]]|]; eauto.
Qed.

Lemma target_indices regs s :
  Forall (holds_qubit (context s)) regs →
  ∃ qubits,
    Forall2 (λ x q, context s !! x = Some (QubitRegister q)) regs qubits ∧
    map_each (λ x, x_reg ← getitem x; attr_qubit x_reg) regs s = (Ok qubits, s).
Proof.
  induction 1 as [|x regs [q Hq] _ (qubits & Hqs & IH)].
  - by exists [].
  - exists (q :: qubits). split; [by constructor|].
    simpl. rewrite !bind_eq, getitem_eq, Hq. simpl.
    by rewrite bind_eq, IH.
Qed.

(** A dispatch whose targets are qubits and whose loop over the controls
    ran to its end: the backend is run on the targets' indices. *)
Lemma gate_operation_applied g regs controls qubits s :
  Forall2 (λ x q, context s !! x = Some (QubitRegister q)) regs qubits →
  controls_loop controls s = (Ok false, s) →
  _gate_operation g regs controls s =
  match
    match state s with
    | Some st => run_gate (num_qubits s) st g qubits
    | None => None
    end
  with
  | Some st' => (Ok tt, mkSim (num_qubits s) (context s) (Some st'))
  | None => (Raise BackendError, s)
  end.
Proof.
  intros Hregs Hloop.
  assert (Forall (holds_qubit (context s)) regs) as Hall.
  { clear Hloop. induction Hregs; constructor; [by eexists|done]. }
  destruct (target_indices regs s Hall) as (qubits' & Hqs & Hmap).
  assert (qubits' = qubits) as ->.
  { clear -Hregs Hqs. revert qubits' Hqs.
    induction Hregs as [|x q regs qubits Hx _ IH]; intros qs' Hqs;
      inversion Hqs; subst; [done|].
    f_equal; [congruence|by apply IH]. }
  unfold _gate_operation.
  rewrite bind_eq, check_targets_ok by done.
  rewrite bind_eq, Hloop. rewrite bind_eq, Hmap.
  unfold_M. destruct (state s) as [st|]; simpl; [|done].
  by destruct (run_gate _ st g qubits).
Qed.

Lemma gate_operation_skipped g regs controls s :
  Forall (holds_qubit (context s)) regs →
  controls_loop controls s = (Ok true, s) →
  _gate_operation g regs controls s = (Ok tt, s).
Proof.
  intros Hall Hloop. unfold _gate_operation.
  rewrite bind_eq, check_targets_ok by done.
  by rewrite bind_eq, Hloop.
Qed.

Lemma gate_operation_bad_control g regs controls m s :
  Forall (holds_qubit (context s)) regs →
  controls_loop controls s = (Raise (UsageError m), s) →
  _gate_operation g regs controls s = (Raise (UsageError m), s).
Proof.
  intros Hall Hloop. unfold _gate_operation.
  rewrite bind_eq, check_targets_ok by done.
  by rewrite bind_eq, Hloop.
Qed.

Lemma gate_operation_bad_target g regs controls s :
  Exists (λ x, ¬ holds_qubit (context s) x) regs →
  ∃ m, msg_reg m ∈ regs ∧ ¬ holds_qubit (context s) (msg_reg m) ∧
       _gate_operation g regs controls s = (Raise (UsageError m), s).
Proof.
  intros Hex. destruct (check_targets_bad regs s Hex) as (m & Hin & Hbad & Hm).
  exists m. split_and!; [done..|].
  unfold _gate_operation. by rewrite bind_eq, Hm.
Qed.

Lemma targets_dec (ctx : gmap Z RegisterEntry) regs :
  Forall (holds_qubit ctx) regs ∨ Exists (λ x, ¬ holds_qubit ctx x) regs.
Proof.
  induction regs as [|x regs [IH|IH]].
  - left. constructor.
  - destruct (holds_qubit_dec ctx x); [left|right]; by constructor.
  - right. by apply Exists_cons_tl.
Qed.

(** Every way a dispatch can end. *)
Lemma gate_operation_cases g regs controls s :
  (∃ m, _gate_operation g regs controls s = (Raise (UsageError m), s)) ∨
  _gate_operation g regs controls s = (Ok tt, s) ∨
  _gate_operation g regs controls s = (Raise BackendError, s) ∨
  (∃ st st', state s = Some st ∧
     _gate_operation g regs controls s =
     (Ok tt, mkSim (num_qubits s) (context s) (Some st'))).
Proof.
  destruct (targets_dec (context s) regs) as [Hall|Hex].
  - destruct (controls_loop_pure controls s) as [[[] Hloop]|[m Hloop]].
    + right; left. by apply gate_operation_skipped.
    + destruct (target_indices regs s Hall) as (qubits & Hqs & _).
      rewrite (gate_operation_applied g regs controls qubits s Hqs Hloop).
      destruct (state s) as [st|]; [|by right; right; left].
      destruct (run_gate _ st g qubits) as [st'|]; eauto 10.
    + left. exists m. by apply gate_operation_bad_control.
  - left. destruct (gate_operation_bad_target g regs controls s Hex)
      as (m & _ & _ & Hm). eauto.
Qed.

Lemma gate_Diag_eq (a b : angle) reg controls s :
  gate_Diag a b reg controls s =
  if diagonal_entries_ok a b
  then _gate_operation (DiagonalGate a b) [reg] controls s
  else (Raise BackendError, s).
Proof.
  unfold gate_Diag. rewrite bind_eq.
  by destruct (diagonal_entries_ok a b).
Qed.

End gates.

(** ** The dense indexing of the qubits *)

Section counting.
Implicit Types (ctx : gmap Z RegisterEntry) (reg q : Z).

Lemma count_insert_qubit ctx reg q :
  ctx !! reg = None →
  count_qubits (<[reg := QubitRegister q]> ctx) = S (count_qubits ctx).
Proof.
  intros Hreg. unfold count_qubits.
  rewrite map_filter_insert_True by done.
  apply map_size_insert_None, map_lookup_filter_None. by left.
Qed.

Lemma count_insert_bit ctx reg q b :
  ctx !! reg = Some (QubitRegister q) →
  S (count_qubits (<[reg := BitRegister b]> ctx)) = count_qubits ctx.
Proof.
  intros Hreg. unfold count_qubits.
  rewrite map_filter_insert_False by done.
  assert (filter (λ kv, is_qubit kv.2 = true) ctx !! reg
          = Some (QubitRegister q)) as Hin
    by (by apply map_lookup_filter_Some).
  rewrite map_filter_delete, map_size_delete_Some by by eexists.
  assert (size (filter (λ kv, is_qubit kv.2 = true) ctx) ≠ 0%nat)
    by (by eapply map_size_ne_0_lookup_2).
  lia.
Qed.

Lemma count_reindex ctx q :
  count_qubits (reindex q <$> ctx) = count_qubits ctx.
Proof.
  unfold count_qubits. rewrite map_filter_fmap, map_size_fmap. f_equal.
  apply map_filter_ext. intros r [j|b] _; simpl; [|done].
  by destruct (decide (q < j)).
Qed.

Lemma count_delete_bit ctx reg b :
  ctx !! reg = Some (BitRegister b) →
  count_qubits (delete reg ctx) = count_qubits ctx.
Proof.
  intros Hreg. unfold count_qubits. apply (f_equal size).
  apply map_filter_delete_not. intros y Hy. rewrite Hreg in Hy.
  by injection Hy as <-.
Qed.

Lemma lookup_measured_qubit ctx reg q b r i :
  (reindex q <$> <[reg := BitRegister b]> ctx) !! r = Some (QubitRegister i) ↔
  r ≠ reg ∧
  ∃ j, ctx !! r = Some (QubitRegister j) ∧ i = if decide (q < j) then j - 1 else j.
Proof.
  rewrite lookup_fmap, lookup_insert.
  destruct (decide (reg = r)) as [->|Hne]; simpl.
  - split; [done|]. by intros [? _].
  - destruct (ctx !! r) as [[j|b']|]; simpl.
    + split.
      * intros Hi. split; [done|]. exists j. split; [done|].
        destruct (decide (q < j)); by injection Hi as <-.
      * intros (_ & j' & [= <-] & ->). by destruct (decide (q < j)).
    + split; [done|]. by intros (_ & j & ? & _).
    + split; [done|]. by intros (_ & j & ? & _).
Qed.

End counting.

Section dense.
Context {St : Type}.
Implicit Types (s : Simulator St) (ctx : gmap Z RegisterEntry) (st : option St).

Lemma dense_frame s s' :
  num_qubits s' = num_qubits s → context s' = context s → dense s → dense s'.
Proof.
  unfold dense, indices_exact, indices_distinct, counter_exact.
  by intros -> ->.
Qed.

Lemma dense_nonneg s : dense s → 0 ≤ num_qubits s.
Proof. intros (_ & _ & ->). lia. Qed.

Lemma dense_init : dense (mkSim 0 ∅ (None : option St)).
Proof.
  split_and!.
  - intros i; simpl. split; [|lia]. intros [reg Hreg].
    by rewrite lookup_empty in Hreg.
  - intros r1 r2 i; simpl. by rewrite lookup_empty.
  - unfold counter_exact, count_qubits; simpl.
    by rewrite map_filter_empty, map_size_empty.
Qed.

(** Allocation appends index [num_qubits]. *)
Lemma dense_allocate s reg st :
  context s !! reg = None →
  dense s →
  dense (mkSim (num_qubits s + 1)
           (<[reg := QubitRegister (num_qubits s + 1 - 1)]> (context s)) st).
Proof.
  intros Hreg Hs. pose proof (dense_nonneg s Hs) as Hn.
  destruct Hs as (Hex & Hdi & Hco).
  replace (num_qubits s + 1 - 1) with (num_qubits s) by lia.
  split_and!.
  - intros i; simpl. split.
    + intros [r Hr]. rewrite lookup_insert in Hr.
      destruct (decide (reg = r)) as [->|Hne].
      * injection Hr as <-. lia.
      * assert (0 ≤ i < num_qubits s) by (apply Hex; eauto). lia.
    + intros Hi. destruct (decide (i = num_qubits s)) as [->|Hne].
      * exists reg. by rewrite lookup_insert_eq.
      * destruct (proj2 (Hex i)) as [r Hr]; [lia|].
        exists r. rewrite lookup_insert_ne; [done|]. congruence.
  - intros r1 r2 i; simpl. rewrite !lookup_insert.
    destruct (decide (reg = r1)) as [E1|H1], (decide (reg = r2)) as [E2|H2].
    + congruence.
    + intros [= <-] Hr2.
      assert (0 ≤ num_qubits s < num_qubits s) by (apply Hex; eauto). lia.
    + intros Hr1 [= <-].
      assert (0 ≤ num_qubits s < num_qubits s) by (apply Hex; eauto). lia.
    + apply Hdi.
  - unfold counter_exact in *; simpl.
    rewrite count_insert_qubit by done. lia.
Qed.

(** Measuring index [q] closes the gap it leaves. *)
Lemma dense_measured s reg q b st :
  context s !! reg = Some (QubitRegister q) →
  dense s →
  dense (mkSim (num_qubits s - 1)
           (reindex q <$> <[reg := BitRegister b]> (context s)) st).
Proof.
  intros Hreg (Hex & Hdi & Hco).
  assert (0 ≤ q < num_qubits s) as Hq by (apply Hex; eauto).
  assert (∀ r j, r ≠ reg → context s !! r = Some (QubitRegister j) → j ≠ q)
    as Hother.
  { intros r j Hne Hr ->. destruct Hne. by eapply Hdi. }
  split_and!.
  - intros i; simpl. split.
    + intros [r Hr]. apply lookup_measured_qubit in Hr as (Hne & j & Hr & ->).
      assert (0 ≤ j < num_qubits s) by (apply Hex; eauto).
      pose proof (Hother r j Hne Hr). destruct (decide (q < j)); lia.
    + intros Hi. destruct (decide (i < q)) as [Hlt|Hge].
      * destruct (proj2 (Hex i)) as [r Hr]; [lia|].
        exists r. apply lookup_measured_qubit.
        split; [intros ->; rewrite Hreg in Hr; injection Hr; lia|].
        exists i. split; [done|]. rewrite decide_False; [done|lia].
      * destruct (proj2 (Hex (i + 1))) as [r Hr]; [lia|].
        exists r. apply lookup_measured_qubit.
        split; [intros ->; rewrite Hreg in Hr; injection Hr; lia|].
        exists (i + 1). split; [done|]. rewrite decide_True; lia.
  - intros r1 r2 i; simpl.
    intros (H1 & j1 & Hr1 & Hi1)%lookup_measured_qubit
           (H2 & j2 & Hr2 & Hi2)%lookup_measured_qubit.
    pose proof (Hother r1 j1 H1 Hr1). pose proof (Hother r2 j2 H2 Hr2).
    apply (Hdi r1 r2 j1); [done|]. rewrite Hr2. do 2 f_equal.
    destruct (decide (q < j1)), (decide (q < j2)); lia.
  - unfold counter_exact in *; simpl. rewrite count_reindex.
    pose proof (count_insert_bit (context s) reg q b Hreg). lia.
Qed.

(** Dropping a bit register touches no qubit. *)
Lemma dense_deleted s reg b st :
  context s !! reg = Some (BitRegister b) →
  dense s →
  dense (mkSim (num_qubits s) (delete reg (context s)) st).
Proof.
  intros Hreg (Hex & Hdi & Hco).
  assert (∀ r i, delete reg (context s) !! r = Some (QubitRegister i)
                 ↔ context s !! r = Some (QubitRegister i)) as Hlook.
  { intros r i. rewrite lookup_delete.
    destruct (decide (reg = r)) as [->|]; [|done]. by rewrite Hreg. }
  split_and!.
  - intros i; simpl. etrans; [|apply Hex]. by setoid_rewrite Hlook.
  - intros r1 r2 i; simpl. rewrite !Hlook. apply Hdi.
  - unfold counter_exact in *; simpl. by erewrite count_delete_bit.
Qed.

End dense.

(** ** What every successful call preserves *)

Section preservation.
Context {St Shot angle : Type} `{!Backend St Shot angle}.
Implicit Types (s : Simulator St) (w : Shot) (reg : Z).

Lemma returns_none_ok (m : M St unit) s v s' :
  returns_none m s = (Ok v, s') → m s = (Ok tt, s').
Proof.
  unfold returns_none. rewrite bind_eq.
  destruct (m s) as [[[]|e] s1]; simpl; [|done]. by intros [= _ ->].
Qed.

Lemma consistent_init : consistent (init : Simulator St).
Proof. split; [apply dense_init|done]. Qed.

Lemma reset_eq s : reset s = (Ok tt, init).
Proof. reflexivity. Qed.

Lemma new_qubit_consistent reg bvalue s s' :
  consistent s → new_qubit reg bvalue s = (Ok tt, s') → consistent s'.
Proof.
  intros [Hd _]. rewrite new_qubit_eq.
  destruct (context s !! reg) eqn:Hreg; [done|]. simpl.
  destruct (state s) as [st|].
  - destruct (run_extend _ st bvalue) as [st'|]; [|done].
    intros [= <-]. split; [by apply dense_allocate|done].
  - intros [= <-]. split; [by apply dense_allocate|done].
Qed.

Lemma measure_consistent w reg s s' :
  consistent s → measure w reg s = (Ok tt, s') → consistent s'.
Proof.
  intros [Hd _]. rewrite measure_eq.
  destruct (context s !! reg) as [[q|b]|] eqn:Hreg; [|done..].
  destruct (match state s with Some _ => _ | None => _ end)
    as [[meas_result post]|]; [|done].
  intros [= <-]. split; [by apply dense_measured|].
  assert (0 ≤ q < num_qubits s) by (apply Hd; eauto).
  unfold state_absent_ok; simpl. destruct (decide _); [done|lia].
Qed.

Lemma measure_leaves_bit w reg q s s' :
  context s !! reg = Some (QubitRegister q) →
  measure w reg s = (Ok tt, s') →
  ∃ b, context s' !! reg = Some (BitRegister b).
Proof.
  intros Hreg. rewrite measure_eq, Hreg.
  destruct (match state s with Some _ => _ | None => _ end)
    as [[meas_result post]|]; [|done].
  intros [= <-]. exists meas_result; simpl.
  by rewrite lookup_measured, decide_True.
Qed.

Lemma read_consistent w reg s i s' :
  consistent s → read w reg s = (Ok i, s') → consistent s'.
Proof.
  intros Hs. rewrite read_eq.
  destruct (context s !! reg) as [[q|b]|] eqn:Hreg; [| |done].
  - pose proof (measure_consistent w reg s) as Hm.
    rewrite measure_eq, Hreg in Hm |- *.
    destruct (match state s with Some _ => _ | None => _ end)
      as [[meas_result post]|]; [|done].
    intros [= _ <-]. by eapply Hm.
  - by intros [= _ <-].
Qed.

Lemma discard_consistent w reg s s' :
  consistent s → discard w reg s = (Ok tt, s') → consistent s'.
Proof.
  intros Hs. rewrite discard_eq.
  destruct (context s !! reg) as [[q|b]|] eqn:Hreg; [| |done].
  - destruct (measure w reg s) as [[[]|e] s1] eqn:Hm; [|done].
    intros [= <-].
    destruct (measure_consistent w reg s s1 Hs Hm) as [Hd Ha].
    destruct (measure_leaves_bit w reg q s s1 Hreg Hm) as [b Hb].
    split; [by eapply dense_deleted|done].
  - intros [= <-]. destruct Hs as [Hd Ha].
    split; [by eapply dense_deleted|done].
Qed.

Lemma gate_consistent (g : Gate angle) regs controls s s' :
  consistent s → _gate_operation g regs controls s = (Ok tt, s') → consistent s'.
Proof.
  intros [Hd Ha] Hg.
  destruct (gate_operation_cases g regs controls s)
    as [[m Hm]|[Hk|[Hb|(st & st' & Hst & Hk)]]]; rewrite Hg in *; try done.
  - by injection Hk as ->.
  - injection Hk as ->. split; [by eapply dense_frame|done].
Qed.

Lemma fresh_eq s :
  fresh s =
  match fresh_loop (S (size (context s))) (context s) 0 with
  | Some i => (Ok i, s)
  | None => (Raise LoopBound, s)
  end.
Proof.
  unfold fresh, mbind, M_bind, get_context. cbv beta iota.
  by destruct (fresh_loop (S (size (context s))) (context s) 0).
Qed.

Lemma fresh_frame s : (fresh s).2 = s.
Proof.
  rewrite fresh_eq.
  by destruct (fresh_loop (S (size (context s))) (context s) 0).
Qed.

Lemma exec_consistent (op : Op Shot angle) s v s' :
  consistent s → exec op s = (Ok v, s') → consistent s'.
Proof.
  intros Hs.
  destruct op; simpl.
  8-18,20-22:
    intros Hop%returns_none_ok; exact (gate_consistent _ _ _ _ _ Hs Hop).
  - intros Hop%returns_none_ok. rewrite reset_eq in Hop.
    injection Hop as <-. apply consistent_init.
  - rewrite bind_eq. pose proof (fresh_frame s) as Hf.
    destruct (fresh s) as [[i|e] s1]; simpl in *; [|done].
    intros [= _ <-]. by subst.
  - intros Hop%returns_none_ok. by eapply new_qubit_consistent.
  - intros Hop%returns_none_ok. rewrite new_qubit_from_bit_eq in Hop.
    by destruct (context s !! reg) as [[]|].
  - intros Hop%returns_none_ok. by eapply measure_consistent.
  - rewrite bind_eq.
    destruct (read w reg s) as [[i|e] s1] eqn:Hr; simpl; [|done].
    intros [= _ <-]. by eapply read_consistent.
  - intros Hop%returns_none_ok. by eapply discard_consistent.
  - intros Hop%returns_none_ok. rewrite gate_Diag_eq in Hop.
    destruct (diagonal_entries_ok a b); [by eapply gate_consistent|done].
Qed.

Lemma run_consistent (ops : list (Op Shot angle)) s vs s' :
  consistent s → run ops s = (Ok vs, s') → consistent s'.
Proof.
  unfold run. revert s vs.
  induction ops as [|op ops IH]; intros s vs Hs; simpl.
  - by intros [= _ <-].
  - rewrite bind_eq.
    destruct (exec op s) as [[v|e] s1] eqn:Hop; [|done].
    rewrite bind_eq.
    destruct (map_each exec ops s1) as [[vs1|e] s2] eqn:Hops; [|done].
    intros [= _ <-].
    eapply IH; [|done]. by eapply exec_consistent.
Qed.

End preservation.

(** ** The scan for a free identifier *)

Section fresh.
Implicit Types (ctx : gmap Z RegisterEntry) (i j : Z).

Lemma fresh_loop_sound fuel ctx i j :
  fresh_loop fuel ctx i = Some j →
  i ≤ j ∧ ctx !! j = None ∧ ∀ k, i ≤ k < j → is_Some (ctx !! k).
Proof.
  revert i. induction fuel as [|fuel IH]; intros i; simpl; [done|].
  destruct (decide (is_Some (ctx !! i))) as [Hi|Hi].
  - intros (Hle & Hj & Hk)%IH. split_and!; [lia|done|].
    intros k Hik. destruct (decide (k = i)) as [->|]; [done|].
    apply Hk. lia.
  - intros [= <-]. split_and!; [lia|by apply eq_None_not_Some|lia].
Qed.

Lemma fresh_loop_exhausted fuel ctx i :
  fresh_loop fuel ctx i = None →
  ∀ k, i ≤ k < i + Z.of_nat fuel → is_Some (ctx !! k).
Proof.
  revert i. induction fuel as [|fuel IH]; intros i; simpl; [lia|].
  destruct (decide (is_Some (ctx !! i))) as [Hi|Hi]; [|done].
  intros Hrest k Hk. destruct (decide (k = i)) as [->|]; [done|].
  apply (IH (i + 1)); [done|lia].
Qed.

(** The loop ends: with more fuel than the context has keys it finds a
    free identifier. *)
Lemma fresh_loop_enough fuel ctx i :
  (size ctx < fuel)%nat → is_Some (fresh_loop fuel ctx i).
Proof.
  intros Hfuel.
  destruct (fresh_loop fuel ctx i) as [j|] eqn:Hloop; [by eexists|].
  pose proof (fresh_loop_exhausted fuel ctx i Hloop) as Hall.
  assert (list_to_set (seqZ i (Z.of_nat fuel)) ⊆ dom ctx) as Hsub.
  { intros k Hk. apply elem_of_list_to_set, elem_of_seqZ in Hk.
    apply elem_of_dom, Hall. lia. }
  apply subseteq_size in Hsub.
  rewrite size_list_to_set, length_seqZ, size_dom in Hsub
    by apply NoDup_seqZ.
  lia.
Qed.

Lemma fresh_loop_fuel fuel fuel' ctx i j :
  fresh_loop fuel ctx i = Some j →
  (size ctx < fuel')%nat →
  fresh_loop fuel' ctx i = Some j.
Proof.
  intros (Hle & Hj & Hk)%fresh_loop_sound Hfuel.
  destruct (fresh_loop_enough fuel' ctx i Hfuel) as [j' Hj'].
  rewrite Hj'. f_equal.
  apply fresh_loop_sound in Hj' as (Hle' & Hj' & Hk').
  destruct (Z.lt_trichotomy j j') as [Hlt|[->|Hlt]]; [|done|].
  - destruct (Hk' j) as [x Hx]; [lia|]. congruence.
  - destruct (Hk j') as [x Hx]; [lia|]. congruence.
Qed.

End fresh.

(** ** Calls that raise *)

Section failures.
Context {St Shot angle : Type} `{!Backend St Shot angle}.
Implicit Types (s : Simulator St) (w : Shot) (reg : Z).

Lemma returns_none_raise (m : M St unit) s e s' :
  returns_none m s = (Raise e, s') → m s = (Raise e, s').
Proof.
  unfold returns_none. rewrite bind_eq.
  destruct (m s) as [[[]|e'] s1]; simpl; [|by intros [= -> ->]].
  unfold mret, M_ret. by intros [=].
Qed.

(** [measure] raises [UsageError] at its check, before anything is
    written. *)
Lemma measure_usage_error_frame w reg m s s' :
  measure w reg s = (Raise (UsageError m), s') → s' = s.
Proof.
  rewrite measure_eq.
  destruct (context s !! reg) as [[q|b]|]; [|by intros [= _ <-]..].
  by destruct (match state s with Some _ => _ | None => _ end) as [[o post]|].
Qed.

Lemma gate_raise_frame (g : Gate angle) regs controls e s s' :
  _gate_operation g regs controls s = (Raise e, s') → s' = s.
Proof.
  intros Hg.
  destruct (gate_operation_cases g regs controls s)
    as [[m Hm]|[Hk|[Hb|(st & st' & Hst & Hk)]]]; rewrite Hg in *;
    congruence.
Qed.

(** A call that raises [UsageError] has written nothing. *)
Lemma usage_error_frame (op : Op Shot angle) m s s' :
  exec op s = (Raise (UsageError m), s') → s' = s.
Proof.
  destruct op; simpl.
  8-18,20-22:
    intros Hop%returns_none_raise; exact (gate_raise_frame _ _ _ _ _ _ Hop).
  - by intros Hop%returns_none_raise.
  - rewrite bind_eq, fresh_eq.
    destruct (fresh_loop _ (context s) 0); simpl; [done|congruence].
  - intros Hop%returns_none_raise. rewrite new_qubit_eq in Hop.
    destruct (context s !! reg); [congruence|].
    simpl in Hop. destruct (state s) as [st|]; [|done].
    by destruct (run_extend _ st bvalue).
  - intros Hop%returns_none_raise. rewrite new_qubit_from_bit_eq in Hop.
    destruct (context s !! reg) as [[]|]; congruence.
  - intros Hop%returns_none_raise. by eapply measure_usage_error_frame.
  - rewrite bind_eq, read_eq.
    destruct (context s !! reg) as [[q|b]|]; simpl; [|done|congruence].
    destruct (match state s with Some _ => _ | None => _ end) as [[o post]|];
      simpl; [done|congruence].
  - intros Hop%returns_none_raise. rewrite discard_eq in Hop.
    destruct (context s !! reg) as [[q|b]|]; [|done|congruence].
    destruct (measure w reg s) as [[[]|e] s1] eqn:Hm; [done|].
    injection Hop as -> <-. by eapply measure_usage_error_frame.
  - intros Hop%returns_none_raise. rewrite gate_Diag_eq in Hop.
    destruct (diagonal_entries_ok a b); [by eapply gate_raise_frame|done].
Qed.

End failures.

(** ** The basis-state backend obeys the measurement law *)

Lemma classical_measures_prepared_bit :
  measures_prepared_bit (St := list bool) (Shot := unit) (angle := unit).
Proof.
  split.
  - intros w b. exists [b]. by destruct b.
  - intros w n st b st'; simpl.
    destruct (bool_decide_reflect (Z.of_nat (length st) = n - 1)) as [Hlen|];
      [|done].
    intros [= <-]. exists (st ++ [b]).
    unfold Classical.fits. rewrite bool_decide_eq_true_2.
    + do 2 f_equal. unfold Classical.bit_at.
      replace (Z.to_nat (n - 1)) with (length st + 0)%nat by lia.
      by rewrite lookup_app_r, Nat.add_comm, Nat.add_sub by lia.
    + split_and!.
      * rewrite length_app; simpl. lia.
      * constructor; [lia|constructor].
      * apply NoDup_singleton.
Qed.

(** * The claims *)

(** C8. [fresh()] returns the smallest non-negative integer that is not a
    key of the context, and leaves the context, [num_qubits] and the state
    as they were.  The loop ends: any fuel above the number of keys gives the
    same identifier. *)
Theorem fresh_least_unused {St} (s : Simulator St) :
  ∃ i, fresh s = (Ok i, s) ∧
       0 ≤ i ∧ context s !! i = None ∧
       (∀ j, 0 ≤ j < i → is_Some (context s !! j)) ∧
       (∀ fuel, (size (context s) < fuel)%nat →
                fresh_loop fuel (context s) 0 = Some i).
Proof.
  destruct (fresh_loop_enough (S (size (context s))) (context s) 0) as [i Hi];
    [lia|].
  exists i. rewrite fresh_eq, Hi. split; [done|].
  pose proof (fresh_loop_sound _ _ _ _ Hi) as (Hle & Hfree & Hused).
  split_and!; [done..|].
  intros fuel Hfuel. by eapply fresh_loop_fuel.
Qed.

(** C10. On a register holding a bit, [read] returns the stored boolean as
    0 or 1 and leaves the simulator as it was, so a second read returns the
    same; [discard] removes that one entry and leaves [num_qubits], the state
    and every other entry as they were. *)
Theorem read_discard_bit {St Shot angle} `{!Backend St Shot angle}
    (w w' : Shot) (reg : Z) (b : bool) (s : Simulator St) :
  context s !! reg = Some (BitRegister b) →
  read w reg s = (Ok (Z.b2z b), s) ∧
  (Z.b2z b = 0 ∨ Z.b2z b = 1) ∧
  (read w reg;; read w' reg) s = (Ok (Z.b2z b), s) ∧
  ∃ s', discard w reg s = (Ok tt, s') ∧
        num_qubits s' = num_qubits s ∧
        state s' = state s ∧
        context s' !! reg = None ∧
        ∀ r, r ≠ reg → context s' !! r = context s !! r.
Proof.
  intros Hreg.
  assert (read w reg s = (Ok (Z.b2z b), s)) as Hread
    by (by rewrite read_eq, Hreg).
  split_and!; [done|by destruct b; auto| |].
  - rewrite bind_eq, Hread. by rewrite read_eq, Hreg.
  - eexists. rewrite discard_eq, Hreg. split_and!; [done..| |]; simpl.
    + apply lookup_delete_eq.
    + intros r Hr. by apply lookup_delete_ne.
Qed.

Lemma read_discard_bit_witness :
  let s := mkSim 1 {[0 := QubitRegister 0; 1 := BitRegister true]} (Some [false]) in
  context s !! 1 = Some (BitRegister true) ∧
  read () 1 s = (Ok 1, s) ∧
  ∃ s', discard () 1 s = (Ok tt, s') ∧ context s' !! 1 = None ∧
        context s' !! 0 = Some (QubitRegister 0).
Proof.
  intros s.
  destruct (read_discard_bit () () 1 true s eq_refl)
    as (Hread & _ & _ & s' & Hdiscard & _ & _ & Hgone & Hrest).
  split_and!; [reflexivity|exact Hread|].
  exists s'. split_and!; [exact Hdiscard|exact Hgone|].
  rewrite Hrest by lia. reflexivity.
Defined.

(** C3. What [new_qubit_from_bit] does, case by case: [UsageError] on a
    register that is absent or holds a qubit, with nothing written; on a
    register holding a bit the entry is deleted and evaluating the unbound
    name [b_reg] raises [NameError], so the register is never allocated as
    a qubit. *)
Theorem new_qubit_from_bit_outcome {St Shot angle} `{!Backend St Shot angle}
    (reg : Z) (s : Simulator St) :
  new_qubit_from_bit reg s =
  match context s !! reg with
  | None => (Raise (UsageError (DoesNotExist reg)), s)
  | Some (QubitRegister _) => (Raise (UsageError (MustBeBit reg)), s)
  | Some (BitRegister _) =>
      (Raise (NameError "b_reg"),
       mkSim (num_qubits s) (delete reg (context s)) (state s))
  end.
Proof. apply new_qubit_from_bit_eq. Qed.

(** C4. A call that raises after it has written: on the context
    [{0: QubitRegister(0), 1: BitRegister(True)}], [new_qubit_from_bit(1)]
    raises [NameError] and register 1, present before the call, is gone
    after it. *)
Theorem new_qubit_from_bit_raises_after_delete {St Shot angle}
    `{!Backend St Shot angle} :
  let s : Simulator St :=
    mkSim 1 {[0 := QubitRegister 0; 1 := BitRegister true]} (Some (basis false)) in
  ∃ s', new_qubit_from_bit 1 s = (Raise (NameError "b_reg"), s') ∧
        context s !! 1 = Some (BitRegister true) ∧
        context s' !! 1 = None ∧
        s' ≠ s.
Proof.
  intros s. eexists. rewrite new_qubit_from_bit_eq.
  change (context s !! 1) with (Some (BitRegister true)).
  split_and!; [reflexivity..|].
  intros Heq. apply (f_equal (λ x, context x !! 1)) in Heq. discriminate.
Qed.

(** C9. The targets are checked before any control is looked at: when some
    target is absent or holds no qubit, the dispatch raises [UsageError],
    about a target, and writes nothing, whatever the controls are. *)
Theorem gate_targets_checked_first {St Shot angle} `{!Backend St Shot angle}
    (g : Gate angle) (regs controls : list Z) (s : Simulator St) :
  Exists (λ x, ¬ holds_qubit (context s) x) regs →
  ∃ m, msg_reg m ∈ regs ∧ ¬ holds_qubit (context s) (msg_reg m) ∧
       _gate_operation g regs controls s = (Raise (UsageError m), s).
Proof. apply gate_operation_bad_target. Qed.

Lemma gate_targets_checked_first_witness :
  let s := mkSim 1 {[0 := QubitRegister 0; 1 := BitRegister false]} (Some [false]) in
  ∃ m, gate_CNOT 0 7 [1] s = (Raise (UsageError m), s).
Proof.
  intros s.
  destruct (gate_targets_checked_first CXGate [0; 7] [1] s) as (m & _ & _ & Hm).
  - apply Exists_cons_tl, Exists_cons_hd. intros [q Hq]. discriminate.
  - exists m. exact Hm.
Defined.

(** C1. After any sequence of public calls that all return, started on a
    new simulator, the qubit indices of the context are exactly
    [0 .. num_qubits - 1], no two registers share an index, and [num_qubits]
    is the number of [QubitRegister] entries. *)
Theorem successful_calls_keep_indices_dense {St Shot angle}
    `{!Backend St Shot angle}
    (ops : list (Op Shot angle)) (vs : list Value) (s : Simulator St) :
  run ops init = (Ok vs, s) →
  indices_exact s ∧ indices_distinct s ∧ counter_exact s.
Proof.
  intros Hrun.
  by destruct (run_consistent ops init vs s consistent_init Hrun) as [Hd _].
Qed.

Lemma successful_calls_keep_indices_dense_witness :
  let ops := [OpNewQubit 4 true; OpNewQubit 9 false; OpNewQubit 2 true;
              OpX 9 []; OpMeasure () 4; OpFresh; OpCNOT 2 9 [4];
              OpDiscard () 9] in
  let s := mkSim 1 {[2 := QubitRegister 0; 4 := BitRegister true]} (Some [true]) in
  run ops Classical.start
  = (Ok [VNone; VNone; VNone; VNone; VNone; VRegister 0; VNone; VNone], s) ∧
  indices_exact s ∧ indices_distinct s ∧ counter_exact s.
Proof.
  intros ops s.
  assert (run ops Classical.start
          = (Ok [VNone; VNone; VNone; VNone; VNone; VRegister 0; VNone; VNone], s))
    as Hrun by (vm_compute; reflexivity).
  split; [exact Hrun|].
  exact (successful_calls_keep_indices_dense ops _ s Hrun).
Defined.

(** C2. A [measure(reg)] that returns, on a register holding qubit [q]:
    the register now holds the bit the backend sampled; every other qubit
    with an index above [q] has it lowered by one; every qubit with an index
    below [q] keeps it; bits and absent registers are as before; [num_qubits]
    is one less, and the state is the partial trace of what the backend saved
    when a qubit is left, absent otherwise. *)
Theorem measure_reindexes {St Shot angle} `{!Backend St Shot angle}
    (w : Shot) (reg q : Z) (s s' : Simulator St) :
  context s !! reg = Some (QubitRegister q) →
  measure w reg s = (Ok tt, s') →
  ∃ meas_result post,
    (st ← state s; run_measure w (num_qubits s) st q) = Some (meas_result, post) ∧
    context s' !! reg = Some (BitRegister meas_result) ∧
    (∀ r i, r ≠ reg → context s !! r = Some (QubitRegister i) → q < i →
            context s' !! r = Some (QubitRegister (i - 1))) ∧
    (∀ r i, context s !! r = Some (QubitRegister i) → i < q →
            context s' !! r = Some (QubitRegister i)) ∧
    (∀ r b, r ≠ reg → context s !! r = Some (BitRegister b) →
            context s' !! r = Some (BitRegister b)) ∧
    (∀ r, context s !! r = None → context s' !! r = None) ∧
    num_qubits s' = num_qubits s - 1 ∧
    state s' = (if decide (0 < num_qubits s - 1)
                then Some (partial_trace post q) else None) ∧
    (num_qubits s' = 0 → state s' = None).
Proof.
  intros Hreg. rewrite measure_eq, Hreg.
  destruct (state s) as [st|]; simpl; [|done].
  destruct (run_measure w (num_qubits s) st q) as [[meas_result post]|]; [|done].
  intros [= <-]. exists meas_result, post; simpl.
  split_and!; try done.
  - by rewrite lookup_measured, decide_True.
  - intros r i Hne Hr Hlt. rewrite lookup_measured, decide_False, Hr by done.
    simpl. by rewrite decide_True.
  - intros r i Hr Hlt. rewrite lookup_measured, decide_False, Hr.
    + simpl. rewrite decide_False; [done|lia].
    + intros ->. rewrite Hreg in Hr. injection Hr. lia.
  - intros r b Hne Hr. by rewrite lookup_measured, decide_False, Hr.
  - intros r Hr. rewrite lookup_measured, decide_False, Hr; [done|].
    intros ->. congruence.
  - intros Hzero. rewrite decide_False; [done|lia].
Qed.

Lemma measure_reindexes_witness :
  let s := mkSim 3 {[10 := QubitRegister 0; 20 := QubitRegister 1;
                     30 := QubitRegister 2]} (Some [true; false; true]) in
  ∃ s', measure () 10 s = (Ok tt, s') ∧
        context s' !! 10 = Some (BitRegister true) ∧
        context s' !! 20 = Some (QubitRegister 0) ∧
        context s' !! 30 = Some (QubitRegister 1) ∧
        num_qubits s' = 2 ∧
        state s' = Some [false; true].
Proof.
  intros s.
  destruct (measure () 10 s) as [[[]|e] s'] eqn:Hm; [|vm_compute in Hm; discriminate].
  destruct (measure_reindexes () 10 0 s s' eq_refl Hm)
    as (b & post & Hrun & Hreg & Hup & _ & _ & _ & Hn & Hst & _).
  vm_compute in Hrun. injection Hrun as <- <-.
  exists s'. split_and!; [reflexivity|exact Hreg| | |exact Hn|exact Hst].
  - apply (Hup 20 1); [lia|reflexivity|lia].
  - apply (Hup 30 2); [lia|reflexivity|lia].
Defined.

(** C7 fails when the register is taken: on [{0: BitRegister(False)}],
    [new_qubit(0, True)] raises [UsageError] and writes nothing, and the
    [read(0)] after it returns 0. *)
Lemma new_qubit_on_taken_register_reads_old_bit :
  let s := mkSim 0 {[0 := BitRegister false]} (None : option (list bool)) in
  new_qubit 0 true s = (Raise (UsageError (AlreadyExists 0)), s) ∧
  read () 0 s = (Ok 0, s) ∧
  (new_qubit 0 true;; read () 0) s = (Raise (UsageError (AlreadyExists 0)), s).
Proof. vm_compute. done. Qed.

(** C7, amended. With a backend that measures a just prepared basis qubit
    to its bit, on a simulator whose state is absent only when [num_qubits]
    is 0 (every simulator reached by calls that returned): when
    [new_qubit(r, b)] returns, so the register was free, the [read(r)] right
    after it returns [b] as 0 or 1, whatever the run's randomness. *)
Theorem new_qubit_then_read {St Shot angle} `{!Backend St Shot angle}
    (r : Z) (b : bool) (w : Shot) (s s1 : Simulator St) :
  measures_prepared_bit →
  state_absent_ok s →
  new_qubit r b s = (Ok tt, s1) →
  ∃ s2, read w r s1 = (Ok (Z.b2z b), s2).
Proof.
  intros [Hbasis Hextend] Hwf. rewrite new_qubit_eq.
  destruct (context s !! r) eqn:Hr; [done|]. simpl.
  destruct (state s) as [st|] eqn:Hst.
  - destruct (run_extend _ st b) as [st'|] eqn:Hrun; [|done].
    intros [= <-]. rewrite read_eq; simpl. rewrite lookup_insert_eq.
    destruct (Hextend w _ _ _ _ Hrun) as [post ->]. eauto.
  - intros [= <-]. rewrite read_eq; simpl. rewrite lookup_insert_eq.
    rewrite (Hwf Hst), Z.add_0_l, Z.sub_diag.
    destruct (Hbasis w b) as [post ->]. eauto.
Qed.

Lemma new_qubit_then_read_witness :
  let s := mkSim 2 {[3 := QubitRegister 0; 5 := QubitRegister 1]}
             (Some [false; true]) in
  ∃ s1 s2, new_qubit 8 true s = (Ok tt, s1) ∧
           read () 8 s1 = (Ok 1, s2).
Proof.
  intros s.
  destruct (new_qubit 8 true s) as [[[]|e] s1] eqn:Hnew;
    [|vm_compute in Hnew; discriminate].
  assert (state_absent_ok s) as Hwf by (intros Hst; discriminate Hst).
  destruct (new_qubit_then_read 8 true () s s1
              classical_measures_prepared_bit Hwf Hnew) as [s2 Hread].
  exists s1, s2. split; [reflexivity|exact Hread].
Defined.

(** The simulators that calls which returned can reach satisfy the side
    condition of the round trip. *)
Lemma reachable_state_absent_ok {St Shot angle} `{!Backend St Shot angle}
    (ops : list (Op Shot angle)) (vs : list Value) (s : Simulator St) :
  run ops init = (Ok vs, s) → state_absent_ok s.
Proof.
  intros Hrun.
  by destruct (run_consistent ops init vs s consistent_init Hrun) as [_ Ha].
Qed.

(** C5 fails when a control before the false one is not a bit: with
    register 0 a qubit, register 3 a bit holding [False] and no register 7,
    [gate_X(0, [7, 3])] raises [UsageError] instead of returning. *)
Lemma false_control_behind_missing_one_raises :
  let s := mkSim 1 {[0 := QubitRegister 0; 3 := BitRegister false]} (Some [true]) in
  holds_qubit (context s) 0 ∧
  holds_bit (context s) false 3 ∧
  gate_X 0 [7; 3] s = (Raise (UsageError (DoesNotExist 7)), s).
Proof. split_and!; [by exists 0|done|by vm_compute]. Qed.

(** C5, amended. For a dispatch whose targets all hold qubits: when a
    control holds [False] and every control before it in the list holds
    [True], the call returns and the simulator is as it was; when every
    control holds [True] (or there is none) the call is the call without
    controls, which runs the gate on the targets' indices, in the order of
    the targets, and stores what the backend answers. *)
Theorem gate_classical_control {St Shot angle} `{!Backend St Shot angle}
    (g : Gate angle) (regs controls : list Z) (s : Simulator St) :
  Forall (holds_qubit (context s)) regs →
  (∀ pre c post,
     controls = pre ++ c :: post →
     Forall (holds_bit (context s) true) pre →
     holds_bit (context s) false c →
     _gate_operation g regs controls s = (Ok tt, s)) ∧
  (Forall (holds_bit (context s) true) controls →
   _gate_operation g regs controls s = _gate_operation g regs [] s ∧
   ∃ qubits,
     Forall2 (λ x q, context s !! x = Some (QubitRegister q)) regs qubits ∧
     _gate_operation g regs controls s =
     match st ← state s; run_gate (num_qubits s) st g qubits with
     | Some st' => (Ok tt, mkSim (num_qubits s) (context s) (Some st'))
     | None => (Raise BackendError, s)
     end).
Proof.
  intros Hregs. split.
  - intros pre c post -> Hpre Hc.
    apply gate_operation_skipped; [done|].
    rewrite controls_loop_true_prefix, controls_loop_cons by done.
    by rewrite Hc.
  - intros Hall.
    destruct (target_indices regs s Hregs) as (qubits & Hqs & _).
    pose proof (controls_loop_all_true controls s Hall) as Hloop.
    rewrite (gate_operation_applied g regs controls qubits s Hqs Hloop).
    rewrite (gate_operation_applied g regs [] qubits s Hqs eq_refl).
    split; [done|]. exists qubits. split; [done|].
    by destruct (state s).
Qed.

Lemma gate_classical_control_witness :
  let s := mkSim 2 {[0 := QubitRegister 0; 1 := QubitRegister 1;
                     2 := BitRegister true; 3 := BitRegister false]}
             (Some [true; false]) in
  gate_CNOT 0 1 [2; 3; 9] s = (Ok tt, s) ∧
  gate_CNOT 0 1 [2; 2] s = gate_CNOT 0 1 [] s ∧
  gate_CNOT 0 1 [2; 2] s = (Ok tt, mkSim 2 (context s) (Some [true; true])).
Proof.
  intros s.
  assert (Forall (holds_qubit (context s)) [0; 1]) as Hregs.
  { repeat constructor; [by exists 0|by exists 1]. }
  destruct (gate_classical_control CXGate [0; 1] [2; 3; 9] s Hregs) as [Hskip _].
  destruct (gate_classical_control CXGate [0; 1] [2; 2] s Hregs) as [_ Happly].
  destruct Happly as (Hsame & qubits & Hqs & Hrun); [by repeat constructor|].
  split_and!.
  - apply (Hskip [2] 3 [9]); [reflexivity|by repeat constructor|reflexivity].
  - exact Hsame.
  - vm_compute. reflexivity.
Defined.

(** C6 fails for a control behind a false one: with register 0 a qubit,
    register 3 a bit holding [False] and no register 7,
    [gate_X(0, [3, 7])] returns and register 7 is never looked at. *)
Lemma missing_control_behind_false_one_is_not_checked :
  let s := mkSim 1 {[0 := QubitRegister 0; 3 := BitRegister false]} (Some [true]) in
  context s !! 7 = None ∧
  gate_X 0 [3; 7] s = (Ok tt, s).
Proof. split; [done|by vm_compute]. Qed.

(** The dispatch raises [UsageError], and writes nothing, when some target
    is absent or holds no qubit, and when some control is absent or holds no
    bit while every control before it in the list holds [True]. *)
Lemma dispatch_usage_errors {St Shot angle} `{!Backend St Shot angle}
    (regs controls : list Z) (s : Simulator St) :
  Exists (λ x, ¬ holds_qubit (context s) x) regs ∨
  (∃ pre c post,
     controls = pre ++ c :: post ∧
     Forall (holds_bit (context s) true) pre ∧
     ∀ b, ¬ holds_bit (context s) b c) →
  ∃ m, ∀ g : Gate angle,
    _gate_operation g regs controls s = (Raise (UsageError m), s).
Proof.
  assert (∀ controls', Exists (λ x, ¬ holds_qubit (context s) x) regs →
    ∃ m, ∀ g : Gate angle,
      _gate_operation g regs controls' s = (Raise (UsageError m), s)) as Htargets.
  { intros controls' Hex.
    destruct (check_targets_bad regs s Hex) as (m & _ & _ & Hm).
    exists m. intros g. unfold _gate_operation. by rewrite bind_eq, Hm. }
  intros [Hex|(pre & c & post & -> & Hpre & Hc)]; [by apply Htargets|].
  destruct (targets_dec (context s) regs) as [Hall|Hex]; [|by apply Htargets].
  assert (∃ m, controls_loop (pre ++ c :: post) s
               = (Raise (UsageError m), s)) as [m Hm].
  { rewrite controls_loop_true_prefix, controls_loop_cons by done.
    unfold holds_bit in Hc.
    destruct (context s !! c) as [[q|b]|]; [eauto| |eauto].
    by destruct (Hc b). }
  exists m. intros g. by apply gate_operation_bad_control.
Qed.

Lemma returns_none_raises {St} (m : M St unit) (e : Exn) (s s' : Simulator St) :
  m s = (Raise e, s') → returns_none m s = (Raise e, s').
Proof. intros Hm. unfold returns_none. by rewrite bind_eq, Hm. Qed.

(** [gate_Diag] with angles its constructor refuses raises before any
    register is looked at: here on a register that does not exist. *)
Lemma gate_Diag_refused_before_the_checks :
  let s := mkSim 0 ∅ (None : option (list bool)) in
  context s !! 99 = None ∧
  @exec _ _ _ Finite.finite (OpDiag None (Some 0) 99 []) s
  = (Raise BackendError, s).
Proof. split; [done|by vm_compute]. Qed.

(** C6, amended. For every gate entry point, with its targets and its
    controls, once the entry point has built its gate object (only
    [gate_Diag] can fail there, before any register is looked at): the call
    raises [UsageError], and writes nothing, when some target is absent or
    holds no qubit, and when some control is absent or holds no bit while
    every control before it in the list holds [True]. *)
Theorem gate_usage_errors {St Shot angle} `{!Backend St Shot angle}
    (op : Op Shot angle) (regs controls : list Z) (s : Simulator St) :
  gate_arguments op = Some (regs, controls) →
  gate_is_built op = true →
  Exists (λ x, ¬ holds_qubit (context s) x) regs ∨
  (∃ pre c post,
     controls = pre ++ c :: post ∧
     Forall (holds_bit (context s) true) pre ∧
     ∀ b, ¬ holds_bit (context s) b c) →
  ∃ m, exec op s = (Raise (UsageError m), s).
Proof.
  intros Hargs Hbuilt Hbad.
  destruct op; simpl in Hargs; try discriminate Hargs;
    injection Hargs as <- <-; simpl.
  all: destruct (dispatch_usage_errors (angle := angle) _ _ s Hbad) as [m Hm];
    exists m; apply returns_none_raises.
  12: { simpl in Hbuilt. rewrite gate_Diag_eq, Hbuilt. apply Hm. }
  all: apply Hm.
Qed.

Lemma gate_usage_errors_witness :
  let s := mkSim 1 {[0 := QubitRegister 0; 2 := BitRegister true;
                     3 := BitRegister false]} (Some [true]) in
  ∃ m, exec (OpH 0 [2; 0; 3]) s = (Raise (UsageError m), s).
Proof.
  intros s.
  apply (gate_usage_errors (OpH 0 [2; 0; 3]) [0] [2; 0; 3] s);
    [reflexivity|reflexivity|].
  right. exists [2], 0, [3].
  split_and!; [reflexivity|by repeat constructor|].
  intros b Hb. discriminate Hb.
Defined.

(** The end-to-end scenario on the basis-state backend: qubit 0 allocated
    as 1, qubit 1 as 0, CNOT from 0 to 1, then [read(1)] returns 1. *)
Example cnot_scenario :
  (run [OpNewQubit 0 true; OpNewQubit 1 false; OpCNOT 0 1 []; OpRead () 1]
     Classical.start).1
  = Ok [VNone; VNone; VNone; VInt 1].
Proof. vm_compute. reflexivity. Qed.

(** * Further properties of the methods *)

Section more_preservation.
Context {St Shot angle : Type} `{!Backend St Shot angle}.
Implicit Types (s : Simulator St) (w : Shot) (reg : Z).

Lemma measure_present w reg s s' :
  measure w reg s = (Ok tt, s') → state_present_ok s'.
Proof.
  rewrite measure_eq.
  destruct (context s !! reg) as [[q|b]|]; [|done..].
  destruct (match state s with Some _ => _ | None => _ end) as [[o post]|];
    [|done].
  intros [= <-]. unfold state_present_ok; simpl.
  destruct (decide (0 < num_qubits s - 1)); [done|]. by intros [? ?].
Qed.

Lemma gate_present (g : Gate angle) regs controls s s' :
  state_present_ok s →
  _gate_operation g regs controls s = (Ok tt, s') → state_present_ok s'.
Proof.
  intros Hp Hg.
  destruct (gate_operation_cases g regs controls s)
    as [[m Hm]|[Hk|[Hb|(st & st' & Hst & Hk)]]]; rewrite Hg in *; try done.
  - by injection Hk as ->.
  - injection Hk as ->. intros _; simpl. apply Hp. by rewrite Hst.
Qed.

Lemma exec_present (op : Op Shot angle) s v s' :
  consistent s → state_present_ok s →
  exec op s = (Ok v, s') → state_present_ok s'.
Proof.
  intros [Hd _] Hp. pose proof (dense_nonneg s Hd) as Hn.
  destruct op; simpl.
  8-18,20-22:
    intros Hop%returns_none_ok; exact (gate_present _ _ _ _ _ Hp Hop).
  - intros Hop%returns_none_ok. rewrite reset_eq in Hop.
    injection Hop as <-. by intros [? ?].
  - rewrite bind_eq. pose proof (fresh_frame s) as Hf.
    destruct (fresh s) as [[i|e] s1]; simpl in *; [|done].
    intros [= _ <-]. by subst.
  - intros Hop%returns_none_ok. rewrite new_qubit_eq in Hop.
    destruct (context s !! reg); [done|]. simpl in Hop.
    destruct (state s) as [st|].
    + destruct (run_extend _ st bvalue); [|done].
      injection Hop as <-. intros _; simpl. lia.
    + injection Hop as <-. intros _; simpl. lia.
  - intros Hop%returns_none_ok. rewrite new_qubit_from_bit_eq in Hop.
    by destruct (context s !! reg) as [[]|].
  - intros Hop%returns_none_ok. by eapply measure_present.
  - rewrite bind_eq, read_eq.
    destruct (context s !! reg) as [[q|b]|] eqn:Hreg; [| |done].
    + pose proof (measure_present w reg s) as Hm.
      rewrite measure_eq, Hreg in Hm |- *.
      destruct (match state s with Some _ => _ | None => _ end)
        as [[o post]|]; [|done].
      intros [= _ <-]. by eapply Hm.
    + by intros [= _ <-].
  - intros Hop%returns_none_ok. rewrite discard_eq in Hop.
    destruct (context s !! reg) as [[q|b]|]; [| |done].
    + destruct (measure w reg s) as [[[]|e] s1] eqn:Hm; [|done].
      injection Hop as <-. by apply (measure_present w reg s s1).
    + by injection Hop as <-.
  - intros Hop%returns_none_ok. rewrite gate_Diag_eq in Hop.
    destruct (diagonal_entries_ok a b); [by eapply gate_present|done].
Qed.

Lemma run_settled (ops : list (Op Shot angle)) s vs s' :
  consistent s → state_present_ok s →
  run ops s = (Ok vs, s') → consistent s' ∧ state_present_ok s'.
Proof.
  unfold run. revert s vs.
  induction ops as [|op ops IH]; intros s vs Hs Hp; simpl.
  - by intros [= _ <-].
  - rewrite bind_eq.
    destruct (exec op s) as [[v|e] s1] eqn:Hop; [|done].
    rewrite bind_eq.
    destruct (map_each exec ops s1) as [[vs1|e] s2] eqn:Hops; [|done].
    intros [= _ <-].
    eapply IH; [| |done]; [by eapply exec_consistent|by eapply exec_present].
Qed.

Lemma run_after_reset (ops : list (Op Shot angle)) s0 vs s :
  run (OpReset :: ops) s0 = (Ok vs, s) →
  ∃ vs', run ops init = (Ok vs', s).
Proof.
  unfold run.
  change (map_each exec (OpReset :: ops) s0)
    with ((ys ← map_each exec ops; mret (VNone :: ys)) (init : Simulator St)).
  rewrite bind_eq.
  destruct (map_each exec ops init) as [[vs'|e] s1]; [|done].
  intros [= _ <-]. by exists vs'.
Qed.

End more_preservation.

(** X1. After [reset] and any calls that all return, on any simulator
    object, the state is absent exactly when [num_qubits] is 0. *)
Theorem state_absent_iff_no_qubits {St Shot angle} `{!Backend St Shot angle}
    (ops : list (Op Shot angle)) (vs : list Value) (s0 s : Simulator St) :
  run (OpReset :: ops) s0 = (Ok vs, s) →
  (state s = None ↔ num_qubits s = 0).
Proof.
  intros [vs' Hrun]%run_after_reset.
  destruct (run_settled ops init vs' s) as [[_ Ha] Hp];
    [apply consistent_init|by intros [? ?]|done|].
  split; [done|]. intros Hzero.
  destruct (state s) as [st|] eqn:Hst; [|done].
  assert (0 < num_qubits s) by (apply Hp; by rewrite Hst). lia.
Qed.

Lemma state_absent_iff_no_qubits_witness :
  let s0 := mkSim 7 {[1 := QubitRegister 4]} (None : option (list bool)) in
  let ops := [OpNewQubit 1 true; OpNewQubit 2 false; OpRead () 1; OpDiscard () 2] in
  let s := mkSim 0 {[1 := BitRegister true]} (None : option (list bool)) in
  run (OpReset :: ops) s0 = (Ok [VNone; VNone; VNone; VInt 1; VNone], s) ∧
  (state s = None ↔ num_qubits s = 0).
Proof.
  intros s0 ops s.
  assert (run (OpReset :: ops) s0 = (Ok [VNone; VNone; VNone; VInt 1; VNone], s))
    as Hrun by (vm_compute; reflexivity).
  split; [exact Hrun|].
  exact (state_absent_iff_no_qubits ops _ s0 s Hrun).
Defined.

(** X2. A public call that raises [UsageError] has written nothing: the
    simulator after it is the simulator before it. *)
Theorem usage_error_writes_nothing {St Shot angle} `{!Backend St Shot angle}
    (op : Op Shot angle) (m : UsageMsg) (s s' : Simulator St) :
  exec op s = (Raise (UsageError m), s') → s' = s.
Proof. apply usage_error_frame. Qed.

Lemma usage_error_writes_nothing_witness :
  let s := mkSim 1 {[0 := QubitRegister 0; 1 := BitRegister true]} (Some [false]) in
  exec (OpMeasure () 1) s = (Raise (UsageError (MustBeQubit 1)), s).
Proof.
  intros s.
  destruct (exec (OpMeasure () 1) s) as [o s'] eqn:Hop.
  assert (o = Raise (UsageError (MustBeQubit 1))) as ->
    by (vm_compute in Hop; congruence).
  by rewrite (usage_error_writes_nothing (OpMeasure () 1) _ s s' Hop).
Defined.

(** X3. When the measuring run fails, nothing has been written yet: on a
    register holding a qubit, if the backend's run of the measuring circuit
    fails (or there is no state to initialise it from), [measure], [read]
    and [discard] raise and leave the simulator exactly as it was. *)
Theorem failed_measuring_run_writes_nothing {St Shot angle}
    `{!Backend St Shot angle}
    (w : Shot) (reg q : Z) (s : Simulator St) :
  context s !! reg = Some (QubitRegister q) →
  (st ← state s; run_measure w (num_qubits s) st q) = None →
  measure w reg s = (Raise BackendError, s) ∧
  read w reg s = (Raise BackendError, s) ∧
  discard w reg s = (Raise BackendError, s).
Proof.
  intros Hreg Hrun.
  assert (measure w reg s = (Raise BackendError, s)) as Hm.
  { rewrite measure_eq, Hreg.
    destruct (state s) as [st|]; simpl in Hrun; [by rewrite Hrun|done]. }
  split_and!; [done| |].
  - rewrite read_eq, Hreg.
    destruct (state s) as [st|]; simpl in Hrun; [by rewrite Hrun|done].
  - by rewrite discard_eq, Hreg, Hm.
Qed.

Lemma failed_measuring_run_writes_nothing_witness :
  let s := mkSim 1 {[0 := QubitRegister 0]} (Some [true; false]) in
  measure () 0 s = (Raise BackendError, s) ∧
  read () 0 s = (Raise BackendError, s) ∧
  discard () 0 s = (Raise BackendError, s).
Proof.
  intros s.
  apply (failed_measuring_run_writes_nothing () 0 0 s); reflexivity.
Defined.

Lemma gate_raise_kind {St Shot angle} `{!Backend St Shot angle}
    (g : Gate angle) (regs controls : list Z) (e : Exn) (s s' : Simulator St) :
  _gate_operation g regs controls s = (Raise e, s') →
  (∃ m, e = UsageError m) ∨ e = BackendError.
Proof.
  intros Hg.
  destruct (gate_operation_cases g regs controls s)
    as [[m Hm]|[Hk|[Hb|(st & st' & Hst & Hk)]]]; rewrite Hg in *;
    try done; [injection Hm as -> _|injection Hb as -> _]; eauto.
Qed.

(** X4. What a public call can raise: [UsageError], a failure of the
    backend, or, from [new_qubit_from_bit] only, the [NameError] of
    [b_reg].  The lookups [context[reg]], [.qubit] and [.bit] inside the
    methods never fail, and the scan of [fresh] always ends. *)
Theorem exceptions_of_a_call {St Shot angle} `{!Backend St Shot angle}
    (op : Op Shot angle) (e : Exn) (s s' : Simulator St) :
  exec op s = (Raise e, s') →
  (∃ m, e = UsageError m) ∨ e = BackendError ∨
  (e = NameError "b_reg" ∧ ∃ reg, op = OpNewQubitFromBit reg).
Proof.
  destruct op; simpl.
  8-18,20-22: intros Hg%returns_none_raise;
    destruct (gate_raise_kind _ _ _ _ _ _ Hg) as [?|?]; eauto.
  - by intros Hr%returns_none_raise.
  - rewrite bind_eq, fresh_eq.
    destruct (fresh_loop_enough (S (size (context s))) (context s) 0)
      as [i ->]; [lia|done].
  - intros Hr%returns_none_raise. rewrite new_qubit_eq in Hr.
    destruct (context s !! reg); [injection Hr as <- _; eauto|].
    simpl in Hr. destruct (state s) as [st|]; [|done].
    destruct (run_extend _ st bvalue); [done|]. injection Hr as <- _. eauto.
  - intros Hr%returns_none_raise. rewrite new_qubit_from_bit_eq in Hr.
    destruct (context s !! reg) as [[]|]; injection Hr as <- _; eauto 10.
  - intros Hr%returns_none_raise. rewrite measure_eq in Hr.
    destruct (context s !! reg) as [[q|b]|]; [|injection Hr as <- _; eauto..].
    destruct (match state s with Some _ => _ | None => _ end) as [[o post]|];
      [done|]. injection Hr as <- _. eauto.
  - rewrite bind_eq, read_eq.
    destruct (context s !! reg) as [[q|b]|]; simpl;
      [|done|intros [= <- _]; eauto].
    destruct (match state s with Some _ => _ | None => _ end) as [[o post]|];
      simpl; [done|]. intros [= <- _]. eauto.
  - intros Hr%returns_none_raise. rewrite discard_eq, measure_eq in Hr.
    destruct (context s !! reg) as [[q|b]|]; [|done|injection Hr as <- _; eauto].
    destruct (match state s with Some _ => _ | None => _ end) as [[o post]|];
      [done|]. injection Hr as <- _. eauto.
  - intros Hg%returns_none_raise. rewrite gate_Diag_eq in Hg.
    destruct (diagonal_entries_ok a b); [|injection Hg as <- _; eauto].
    destruct (gate_raise_kind _ _ _ _ _ _ Hg) as [?|?]; eauto.
Qed.

Lemma exceptions_of_a_call_witness :
  let s := mkSim 0 {[5 := BitRegister true]} (None : option (list bool)) in
  ∃ s', exec (OpNewQubitFromBit 5) s = (Raise (NameError "b_reg"), s').
Proof.
  intros s.
  destruct (exec (OpNewQubitFromBit 5) s) as [[v|e] s'] eqn:Hop;
    [vm_compute in Hop; discriminate|].
  destruct (exceptions_of_a_call (OpNewQubitFromBit 5) e s s' Hop)
    as [[m ->]|[->|[-> _]]];
    [vm_compute in Hop; discriminate..|].
  by exists s'.
Defined.

(** X5. How [new_qubit] fails.  It raises [UsageError] exactly on a taken
    register, with nothing written.  When the backend run that adds the
    qubit fails, [num_qubits] has already been incremented: the context and
    the state are as before, the counter is one more. *)
Theorem new_qubit_failure {St Shot angle} `{!Backend St Shot angle}
    (reg : Z) (bvalue : bool) (e : Exn) (s s' : Simulator St) :
  new_qubit reg bvalue s = (Raise e, s') →
  (e = UsageError (AlreadyExists reg) ∧ is_Some (context s !! reg) ∧ s' = s) ∨
  (e = BackendError ∧ context s !! reg = None ∧ is_Some (state s) ∧
   num_qubits s' = num_qubits s + 1 ∧
   context s' = context s ∧ state s' = state s).
Proof.
  rewrite new_qubit_eq.
  destruct (context s !! reg) as [x|] eqn:Hreg.
  - intros [= <- <-]. left. eauto.
  - simpl. destruct (state s) as [st|]; [|done].
    destruct (run_extend _ st bvalue); [done|].
    intros [= <- <-]. right. simpl. eauto 10.
Qed.

Lemma new_qubit_failure_witness :
  let s := mkSim 2 {[0 := QubitRegister 0; 1 := QubitRegister 1]}
             (Some [true; false]) in
  ∃ s', @new_qubit _ _ _ Capped.capped 2 true s = (Raise BackendError, s') ∧
        num_qubits s' = 3 ∧ context s' = context s ∧ state s' = state s.
Proof.
  intros s.
  destruct (@new_qubit _ _ _ Capped.capped 2 true s) as [[v|e] s'] eqn:Hnew;
    [vm_compute in Hnew; discriminate|].
  destruct (@new_qubit_failure _ _ _ Capped.capped 2 true e s s' Hnew)
    as [(-> & Htaken & _)|(-> & _ & _ & Hn & Hctx & Hst)].
  - destruct Htaken as [x Hx]. vm_compute in Hx. discriminate.
  - exists s'. split_and!; [reflexivity|exact Hn|exact Hctx|exact Hst].
Defined.

Section allocation.
Context {St Shot angle : Type} `{!Backend St Shot angle}.
Implicit Types (s : Simulator St) (rbs : list (Z * bool)).

Lemma run_cons (op : Op Shot angle) ops s :
  run (op :: ops) s =
  match exec op s with
  | (Ok v, s1) =>
      match run ops s1 with
      | (Ok vs, s2) => (Ok (v :: vs), s2)
      | (Raise e, s2) => (Raise e, s2)
      end
  | (Raise e, s1) => (Raise e, s1)
  end.
Proof.
  unfold run.
  change (map_each exec (op :: ops))
    with (y ← exec op; ys ← map_each exec ops; mret (y :: ys)).
  rewrite bind_eq. destruct (exec op s) as [[v|e] s1]; [|done].
  rewrite bind_eq. by destruct (map_each exec ops s1) as [[vs|e] s2].
Qed.

Lemma allocations_from rbs s vs s' :
  run (allocations (Shot := Shot) (angle := angle) rbs) s = (Ok vs, s') →
  num_qubits s' = num_qubits s + Z.of_nat (length rbs) ∧
  (∀ r x, context s !! r = Some x → context s' !! r = Some x) ∧
  (∀ i r b, rbs !! i = Some (r, b) →
            context s' !! r = Some (QubitRegister (num_qubits s + Z.of_nat i))).
Proof.
  revert s vs.
  induction rbs as [|[r0 b0] rbs IH]; intros s vs.
  - intros [= _ <-]. split_and!; [simpl; lia|done|done].
  - change (allocations ((r0, b0) :: rbs))
      with (OpNewQubit (Shot := Shot) (angle := angle) r0 b0 :: allocations rbs).
    rewrite run_cons.
    destruct (exec (OpNewQubit r0 b0) s) as [[v|e] s1] eqn:Hop; [|done].
    destruct (run (allocations rbs) s1) as [[vs1|e] s2] eqn:Hops; [|done].
    intros [= _ <-].
    apply returns_none_ok in Hop. rewrite new_qubit_eq in Hop.
    destruct (context s !! r0) eqn:Hr0; [done|]. simpl in Hop.
    assert (num_qubits s1 = num_qubits s + 1 ∧
            context s1 = <[r0 := QubitRegister (num_qubits s + 1 - 1)]> (context s))
      as [Hn1 Hc1].
    { destruct (state s) as [st|]; [destruct (run_extend _ st b0)|];
        try done; by injection Hop as <-. }
    destruct (IH s1 vs1 Hops) as (Hn & Hkeep & Hnew).
    split_and!.
    + simpl length. lia.
    + intros r x Hr. apply Hkeep. rewrite Hc1, lookup_insert_ne; [done|].
      congruence.
    + intros [|i] r b; simpl.
      * intros [= <- <-]. apply Hkeep. rewrite Hc1, lookup_insert_eq.
        do 2 f_equal. lia.
      * intros Hi. rewrite (Hnew i r b Hi). do 2 f_equal. lia.
Qed.

End allocation.

(** X6. Registers allocated one after the other on a new simulator get the
    qubit indices 0, 1, 2, ... in the order of the calls, whatever the
    identifiers are, and [num_qubits] is the number of calls. *)
Theorem allocation_order {St Shot angle} `{!Backend St Shot angle}
    (rbs : list (Z * bool)) (vs : list Value) (s : Simulator St) :
  run (allocations (Shot := Shot) (angle := angle) rbs) init = (Ok vs, s) →
  num_qubits s = Z.of_nat (length rbs) ∧
  ∀ i r b, rbs !! i = Some (r, b) →
           context s !! r = Some (QubitRegister (Z.of_nat i)).
Proof.
  intros (Hn & _ & Hnew)%allocations_from. split; [exact Hn|].
  intros i r b Hi. by rewrite (Hnew i r b Hi).
Qed.

Lemma allocation_order_witness :
  ∃ s, run (allocations [(7, true); (-2, false); (3, true)]) Classical.start
       = (Ok [VNone; VNone; VNone], s) ∧
       context s !! 7 = Some (QubitRegister 0) ∧
       context s !! (-2) = Some (QubitRegister 1) ∧
       context s !! 3 = Some (QubitRegister 2) ∧
       num_qubits s = 3.
Proof.
  destruct (run (allocations [(7, true); (-2, false); (3, true)]) Classical.start)
    as [[vs|e] s] eqn:Hrun; [|vm_compute in Hrun; discriminate].
  destruct (allocation_order [(7, true); (-2, false); (3, true)] vs s Hrun)
    as [Hn Hidx].
  exists s. split_and!.
  - f_equal. vm_compute in Hrun. congruence.
  - exact (Hidx 0%nat 7 true eq_refl).
  - exact (Hidx 1%nat (-2) false eq_refl).
  - exact (Hidx 2%nat 3 true eq_refl).
  - exact Hn.
Defined.

(** X7. [new_qubit] on the identifier [fresh()] hands out never raises
    [UsageError]: either it returns, with the register at index
    [num_qubits] and every other register as before, or the backend run
    failed. *)
Theorem new_qubit_on_fresh {St Shot angle} `{!Backend St Shot angle}
    (bvalue : bool) (s : Simulator St) :
  ∃ i, fresh s = (Ok i, s) ∧
       ((∃ s', new_qubit i bvalue s = (Ok tt, s') ∧
               context s' = <[i := QubitRegister (num_qubits s)]> (context s) ∧
               num_qubits s' = num_qubits s + 1) ∨
        (∃ s', new_qubit i bvalue s = (Raise BackendError, s'))).
Proof.
  destruct (fresh_loop_enough (S (size (context s))) (context s) 0) as [i Hi];
    [lia|].
  exists i. rewrite fresh_eq, Hi. split; [done|].
  apply fresh_loop_sound in Hi as (_ & Hfree & _).
  rewrite new_qubit_eq, Hfree; simpl.
  replace (num_qubits s + 1 - 1) with (num_qubits s) by lia.
  destruct (state s) as [st|]; [destruct (run_extend _ st bvalue)|]; eauto.
Qed.

(** X8. A [discard(reg)] that returns releases the identifier: the register
    is absent, so [read], [measure] and [discard] on it raise
    [UsageError] about a missing register with nothing written; a gate
    dispatch with the register among its targets raises [UsageError] about
    one of its targets that holds no qubit, with nothing written, and about
    the register itself when it is the only target; [fresh()] hands out an
    identifier no larger than it when it is non-negative; and [new_qubit] on
    it does not raise [UsageError]. *)
Theorem discard_releases_identifier {St Shot angle} `{!Backend St Shot angle}
    (w w' : Shot) (reg : Z) (bvalue : bool) (s s' : Simulator St) :
  discard w reg s = (Ok tt, s') →
  context s' !! reg = None ∧
  read w' reg s' = (Raise (UsageError (DoesNotExist reg)), s') ∧
  measure w' reg s' = (Raise (UsageError (DoesNotExist reg)), s') ∧
  discard w' reg s' = (Raise (UsageError (DoesNotExist reg)), s') ∧
  (∀ (g : Gate angle) regs controls,
     reg ∈ regs →
     ∃ m, msg_reg m ∈ regs ∧ ¬ holds_qubit (context s') (msg_reg m) ∧
          _gate_operation g regs controls s' = (Raise (UsageError m), s')) ∧
  (∀ (g : Gate angle) controls,
     _gate_operation g [reg] controls s'
     = (Raise (UsageError (DoesNotExist reg)), s')) ∧
  (0 ≤ reg → ∃ i, fresh s' = (Ok i, s') ∧ i ≤ reg) ∧
  (∀ m, (new_qubit reg bvalue s').1 ≠ Raise (UsageError m)).
Proof.
  intros Hdis.
  assert (context s' !! reg = None) as Hgone.
  { rewrite discard_eq in Hdis.
    destruct (context s !! reg) as [[q|b]|]; [| |done].
    - destruct (measure w reg s) as [[[]|e] s1]; [|done].
      injection Hdis as <-. apply lookup_delete_eq.
    - injection Hdis as <-. apply lookup_delete_eq. }
  split_and!; [done|by rewrite read_eq, Hgone|by rewrite measure_eq, Hgone
              |by rewrite discard_eq, Hgone| | | |].
  - intros g regs controls Hin. apply gate_operation_bad_target.
    apply Exists_exists. exists reg. split; [done|].
    intros [q Hq]. congruence.
  - intros g controls. unfold _gate_operation.
    rewrite bind_eq. simpl. by rewrite bind_eq, check_qubit_eq, Hgone.
  - intros Hreg.
    destruct (fresh_loop_enough (S (size (context s'))) (context s') 0)
      as [i Hi]; [lia|].
    exists i. rewrite fresh_eq, Hi. split; [done|].
    apply fresh_loop_sound in Hi as (_ & _ & Hused).
    destruct (decide (i ≤ reg)) as [|Hlt]; [done|].
    destruct (Hused reg) as [x Hx]; [lia|congruence].
  - intros m. rewrite new_qubit_eq, Hgone; simpl.
    destruct (state s') as [st|]; [destruct (run_extend _ st bvalue)|]; done.
Qed.

Lemma discard_releases_identifier_witness :
  let s := mkSim 2 {[0 := QubitRegister 0; 1 := QubitRegister 1]}
             (Some [true; false]) in
  ∃ s', discard () 0 s = (Ok tt, s') ∧
        context s' !! 0 = None ∧
        fresh s' = (Ok 0, s') ∧
        read () 0 s' = (Raise (UsageError (DoesNotExist 0)), s') ∧
        ∃ m, gate_CNOT 1 0 [] s' = (Raise (UsageError m), s').
Proof.
  intros s.
  destruct (discard () 0 s) as [[[]|e] s'] eqn:Hdis;
    [|vm_compute in Hdis; discriminate].
  destruct (discard_releases_identifier () () 0 true s s' Hdis)
    as (Hgone & Hread & _ & _ & Hgate & _ & Hfresh & _).
  exists s'. split_and!; [reflexivity|exact Hgone| |exact Hread|].
  - destruct Hfresh as (i & Hi & Hle); [lia|].
    assert (0 ≤ i) as Hnonneg.
    { injection Hdis as <-. vm_compute in Hi. injection Hi as <-. lia. }
    by replace i with 0 in Hi by lia.
  - destruct (Hgate CXGate [1; 0] []) as (m & _ & _ & Hm).
    + apply list_elem_of_further, list_elem_of_here.
    + exists m. exact Hm.
Defined.

(** X9. When each method raises [UsageError]: [measure] exactly on a
    register that holds no qubit, [read] and [discard] exactly on an absent
    register, [new_qubit] exactly on a present one, [new_qubit_from_bit]
    exactly on a register that holds no bit. *)
Theorem usage_error_conditions {St Shot angle} `{!Backend St Shot angle}
    (w : Shot) (reg : Z) (bvalue : bool) (s : Simulator St) :
  ((∃ m, (measure w reg s).1 = Raise (UsageError m)) ↔
   ¬ holds_qubit (context s) reg) ∧
  ((∃ m, (read w reg s).1 = Raise (UsageError m)) ↔ context s !! reg = None) ∧
  ((∃ m, (discard w reg s).1 = Raise (UsageError m)) ↔ context s !! reg = None) ∧
  ((∃ m, (new_qubit reg bvalue s).1 = Raise (UsageError m)) ↔
   is_Some (context s !! reg)) ∧
  ((∃ m, (new_qubit_from_bit reg s).1 = Raise (UsageError m)) ↔
   ∀ b, ¬ holds_bit (context s) b reg).
Proof.
  unfold holds_qubit, holds_bit. split_and!.
  - rewrite measure_eq.
    destruct (context s !! reg) as [[q|b]|].
    + destruct (match state s with Some _ => _ | None => _ end) as [[o post]|];
        simpl; (split; [by intros [m Hm]|intros Hq; destruct Hq; eauto]).
    + simpl. split; [by intros _ [q Hq]|eauto].
    + simpl. split; [by intros _ [q Hq]|eauto].
  - rewrite read_eq.
    destruct (context s !! reg) as [[q|b]|].
    + destruct (match state s with Some _ => _ | None => _ end) as [[o post]|];
        simpl; (split; [by intros [m Hm]|done]).
    + simpl. split; [by intros [m Hm]|done].
    + simpl. split; [done|eauto].
  - rewrite discard_eq, measure_eq.
    destruct (context s !! reg) as [[q|b]|].
    + destruct (match state s with Some _ => _ | None => _ end) as [[o post]|];
        simpl; (split; [by intros [m Hm]|done]).
    + simpl. split; [by intros [m Hm]|done].
    + simpl. split; [done|eauto].
  - rewrite new_qubit_eq.
    destruct (context s !! reg) as [x|]; simpl.
    + split; [eauto|eauto].
    + destruct (state s) as [st|]; [destruct (run_extend _ st bvalue)|]; simpl;
        (split; [by intros [m Hm]|by intros [x Hx]]).
  - rewrite new_qubit_from_bit_eq.
    destruct (context s !! reg) as [[q|b]|]; simpl.
    + split; [by intros _ b Hb|eauto].
    + split; [by intros [m Hm]|]. intros Hb. by destruct (Hb b).
    + split; [by intros _ b Hb|eauto].
Qed.

(** X10. A [read(reg)] that returns leaves the register holding the bit it
    returned, so every later [read(reg)] returns the same value and writes
    nothing; on a register that held a qubit the simulator after the read is
    the simulator after [measure(reg)]. *)
Theorem read_is_idempotent {St Shot angle} `{!Backend St Shot angle}
    (w w' : Shot) (reg i : Z) (s s' : Simulator St) :
  read w reg s = (Ok i, s') →
  ∃ b, i = Z.b2z b ∧
       context s' !! reg = Some (BitRegister b) ∧
       read w' reg s' = (Ok i, s') ∧
       (holds_qubit (context s) reg → measure w reg s = (Ok tt, s')) ∧
       (holds_bit (context s) b reg → s' = s).
Proof.
  rewrite read_eq.
  destruct (context s !! reg) as [[q|b]|] eqn:Hreg; [| |done].
  - pose proof (measure_eq w reg s) as Hm. rewrite Hreg in Hm.
    destruct (match state s with Some _ => _ | None => _ end)
      as [[o post]|]; [|done].
    intros [= <- <-]. rewrite Hm; simpl. exists o.
    assert (context (mkSim (num_qubits s - 1)
              (reindex q <$> <[reg := BitRegister o]> (context s))
              (if decide (0 < num_qubits s - 1)
               then Some (partial_trace post q) else None)) !! reg
            = Some (BitRegister o)) as Hbit
      by (simpl; by rewrite lookup_measured, decide_True).
    split_and!; [done|done| |done|].
    + by rewrite read_eq, Hbit.
    + unfold holds_bit. rewrite Hreg. by intros [=].
  - intros [= <- <-]. exists b.
    split_and!; [done|done| | |done].
    + by rewrite read_eq, Hreg.
    + intros [q Hq]. congruence.
Qed.

Lemma read_is_idempotent_witness :
  let s := mkSim 2 {[0 := QubitRegister 0; 1 := QubitRegister 1]}
             (Some [false; true]) in
  ∃ s', read () 1 s = (Ok 1, s') ∧ read () 1 s' = (Ok 1, s') ∧
        measure () 1 s = (Ok tt, s').
Proof.
  intros s.
  destruct (read () 1 s) as [[i|e] s'] eqn:Hread;
    [|vm_compute in Hread; discriminate].
  destruct (read_is_idempotent () () 1 i s s' Hread)
    as (b & _ & _ & Hagain & Hmeasure & _).
  assert (i = 1) as -> by (vm_compute in Hread; congruence).
  exists s'. split_and!; [reflexivity|exact Hagain|].
  apply Hmeasure. by exists 1.
Defined.

(** X11. A [discard(reg)] that returns, on a register holding qubit [q]:
    the keys of the context are the keys before without [reg], every other
    entry is what the loop of [measure] makes of it (an index above [q] is
    one less, everything else is as before), and [num_qubits] is one
    less. *)
Theorem discard_qubit_closes_gap {St Shot angle} `{!Backend St Shot angle}
    (w : Shot) (reg q : Z) (s s' : Simulator St) :
  context s !! reg = Some (QubitRegister q) →
  discard w reg s = (Ok tt, s') →
  dom (context s') = dom (context s) ∖ {[reg]} ∧
  (∀ r, r ≠ reg → context s' !! r = reindex q <$> context s !! r) ∧
  num_qubits s' = num_qubits s - 1 ∧
  (num_qubits s' = 0 → state s' = None).
Proof.
  intros Hreg. rewrite discard_eq, measure_eq, Hreg.
  destruct (match state s with Some _ => _ | None => _ end)
    as [[o post]|]; [|done].
  intros [= <-]; simpl. split_and!.
  - rewrite dom_delete_L, dom_fmap_L, dom_insert_L.
    apply set_eq. intros r.
    rewrite !elem_of_difference, elem_of_union, elem_of_singleton.
    split; intros [Hin Hne]; (split; [|done]); [by destruct Hin|by right].
  - intros r Hr. by rewrite lookup_delete_ne, lookup_measured, decide_False.
  - done.
  - intros Hzero. rewrite decide_False; [done|lia].
Qed.

Lemma discard_qubit_closes_gap_witness :
  let s := mkSim 3 {[10 := QubitRegister 0; 20 := QubitRegister 1;
                     30 := QubitRegister 2]} (Some [true; false; true]) in
  ∃ s', discard () 20 s = (Ok tt, s') ∧
        context s' !! 10 = Some (QubitRegister 0) ∧
        context s' !! 20 = None ∧
        context s' !! 30 = Some (QubitRegister 1) ∧
        num_qubits s' = 2.
Proof.
  intros s.
  destruct (discard () 20 s) as [[[]|e] s'] eqn:Hdis;
    [|vm_compute in Hdis; discriminate].
  destruct (discard_qubit_closes_gap () 20 1 s s' eq_refl Hdis)
    as (Hdom & Hrest & Hn & _).
  exists s'. split_and!; [reflexivity| | | |exact Hn].
  - by rewrite Hrest.
  - apply not_elem_of_dom. rewrite Hdom, elem_of_difference, elem_of_singleton.
    by intros [_ []].
  - by rewrite Hrest.
Defined.

(** X12. No gate call writes the context or [num_qubits], whatever its
    targets and controls and however it ends; and a gate call that does not
    return leaves the state alone too. *)
Theorem gate_keeps_registers {St Shot angle} `{!Backend St Shot angle}
    (g : Gate angle) (regs controls : list Z) (s : Simulator St) :
  context (_gate_operation g regs controls s).2 = context s ∧
  num_qubits (_gate_operation g regs controls s).2 = num_qubits s ∧
  ((_gate_operation g regs controls s).1 ≠ Ok tt →
   (_gate_operation g regs controls s).2 = s).
Proof.
  destruct (gate_operation_cases g regs controls s)
    as [[m ->]|[->|[->|(st & st' & Hst & ->)]]]; by simpl.
Qed.

Section valid_indices.
Context {St : Type}.
Implicit Types (s : Simulator St) (regs : list Z) (qubits : list Z).

Lemma target_indices_in_range s regs qubits :
  indices_exact s →
  Forall2 (λ x q, context s !! x = Some (QubitRegister q)) regs qubits →
  Forall (λ q, 0 ≤ q < num_qubits s) qubits.
Proof.
  intros Hex. induction 1 as [|x q regs qubits Hx _ IH]; constructor; [|done].
  apply Hex. eauto.
Qed.

Lemma target_indices_distinct s regs qubits :
  indices_distinct s →
  NoDup regs →
  Forall2 (λ x q, context s !! x = Some (QubitRegister q)) regs qubits →
  NoDup qubits.
Proof.
  intros Hdi Hnd Hall. induction Hall as [|x q regs qubits Hx Hall IH].
  - constructor.
  - apply NoDup_cons in Hnd as [Hnotin Hnd].
    apply NoDup_cons. split; [|by apply IH].
    intros Hin. apply list_elem_of_lookup in Hin as [i Hi].
    destruct (Forall2_lookup_r _ _ _ _ _ Hall Hi) as (x' & Hx' & Hq').
    rewrite (Hdi x x' q Hx Hq') in Hnotin.
    apply Hnotin, list_elem_of_lookup. eauto.
Qed.

End valid_indices.

(** X13. On a simulator reached by calls that returned, a gate on distinct
    registers that hold qubits, with every control holding [True], runs the
    backend on the current state with as many indices as targets, all
    distinct and all within [0 .. num_qubits - 1]. *)
Theorem gate_runs_on_valid_indices {St Shot angle} `{!Backend St Shot angle}
    (ops : list (Op Shot angle)) (vs : list Value) (s : Simulator St)
    (g : Gate angle) (regs controls : list Z) :
  run ops init = (Ok vs, s) →
  regs ≠ [] →
  NoDup regs →
  Forall (holds_qubit (context s)) regs →
  Forall (holds_bit (context s) true) controls →
  ∃ st qubits,
    state s = Some st ∧
    length qubits = length regs ∧
    NoDup qubits ∧
    Forall (λ q, 0 ≤ q < num_qubits s) qubits ∧
    _gate_operation g regs controls s =
    match run_gate (num_qubits s) st g qubits with
    | Some st' => (Ok tt, mkSim (num_qubits s) (context s) (Some st'))
    | None => (Raise BackendError, s)
    end.
Proof.
  intros Hrun Hne Hnd Hregs Hctl.
  destruct (run_consistent ops init vs s consistent_init Hrun)
    as [(Hex & Hdi & _) Habsent].
  destruct (target_indices regs s Hregs) as (qubits & Hqs & _).
  pose proof (target_indices_in_range s regs qubits Hex Hqs) as Hrange.
  destruct (state s) as [st|] eqn:Hst.
  - exists st, qubits. split_and!; [done| |by eapply target_indices_distinct|done|].
    + symmetry. by eapply Forall2_length.
    + rewrite (gate_operation_applied g regs controls qubits s Hqs)
        by by apply controls_loop_all_true.
      by rewrite Hst.
  - specialize (Habsent Hst).
    destruct Hqs as [|x q regs qubits Hx Hqs]; [done|].
    apply Forall_cons in Hrange as [Hq _]. lia.
Qed.

Lemma gate_runs_on_valid_indices_witness :
  let ops := [OpNewQubit 4 true; OpNewQubit 9 false; OpNewQubit 2 false;
              OpMeasure () 4] in
  ∃ s, run ops Classical.start = (Ok [VNone; VNone; VNone; VNone], s) ∧
       gate_CNOT 2 9 [4] s
       = (Ok tt, mkSim (num_qubits s) (context s) (Some [false; false])).
Proof.
  intros ops.
  set (s := mkSim 2 {[2 := QubitRegister 1; 4 := BitRegister true;
                      9 := QubitRegister 0]} (Some [false; false])).
  assert (run ops Classical.start = (Ok [VNone; VNone; VNone; VNone], s))
    as Hrun by (vm_compute; reflexivity).
  destruct (gate_runs_on_valid_indices ops _ s CXGate [2; 9] [4] Hrun)
    as (st & qubits & Hst & Hlen & Hnd & Hrange & Hgate).
  - done.
  - compute_done.
  - repeat constructor; [by exists 1|by exists 0].
  - by repeat constructor.
  - exists s. split; [exact Hrun|]. vm_compute. reflexivity.
Defined.

Section lifecycle.
Context {St Shot angle : Type} `{!Backend St Shot angle}.
Implicit Types (s : Simulator St) (w : Shot) (reg r : Z).

Lemma measure_keeps_bits w reg r b s s' :
  measure w reg s = (Ok tt, s') →
  context s !! r = Some (BitRegister b) →
  context s' !! r = Some (BitRegister b).
Proof.
  rewrite measure_eq.
  destruct (context s !! reg) as [[q|b']|] eqn:Hreg; [|done..].
  destruct (match state s with Some _ => _ | None => _ end) as [[o post]|];
    [|done].
  intros [= <-] Hr; simpl.
  rewrite lookup_measured, decide_False, Hr; [done|]. congruence.
Qed.

Lemma gate_keeps_context (g : Gate angle) regs controls o s s' :
  _gate_operation g regs controls s = (o, s') → context s' = context s.
Proof.
  intros Hg.
  destruct (gate_operation_cases g regs controls s)
    as [[m Hm]|[Hk|[Hb|(st & st' & Hst & Hk)]]]; rewrite Hg in *;
    [injection Hm as _ ->|injection Hk as _ ->|injection Hb as _ ->
    |injection Hk as _ ->]; done.
Qed.

End lifecycle.

(** X14. The bit a register holds is never rewritten: after a call that
    returns, other than [reset], a register that held a bit holds the same
    bit, unless the call was [discard] of that very register, which leaves
    it absent. *)
Theorem bits_are_stable {St Shot angle} `{!Backend St Shot angle}
    (op : Op Shot angle) (v : Value) (r : Z) (b : bool) (s s' : Simulator St) :
  op ≠ OpReset →
  exec op s = (Ok v, s') →
  context s !! r = Some (BitRegister b) →
  context s' !! r = Some (BitRegister b) ∨
  (context s' !! r = None ∧ ∃ w, op = OpDiscard w r).
Proof.
  intros Hop. destruct op; try done; simpl.
  7-17,19-21: intros Hg%returns_none_ok Hr; left;
    by rewrite (gate_keeps_context _ _ _ _ _ _ Hg).
  - rewrite bind_eq. pose proof (fresh_frame s) as Hf.
    destruct (fresh s) as [[i|e] s1]; simpl in *; [|done].
    intros [= _ <-] Hr. left. by subst.
  - intros Hn%returns_none_ok Hr. left. rewrite new_qubit_eq in Hn.
    destruct (context s !! reg) eqn:Hreg; [done|]. simpl in Hn.
    assert (context s' = <[reg := QubitRegister (num_qubits s + 1 - 1)]> (context s))
      as ->.
    { destruct (state s) as [st|]; [destruct (run_extend _ st bvalue)|];
        try done; by injection Hn as <-. }
    rewrite lookup_insert_ne; [done|]. congruence.
  - intros Hn%returns_none_ok. rewrite new_qubit_from_bit_eq in Hn.
    by destruct (context s !! reg) as [[]|].
  - intros Hm%returns_none_ok Hr. left. by eapply measure_keeps_bits.
  - rewrite bind_eq.
    destruct (read w reg s) as [[i|e] s1] eqn:Hread; simpl; [|done].
    intros [= _ <-] Hr. left. rewrite read_eq in Hread.
    destruct (context s !! reg) as [[q|b']|] eqn:Hreg; [| |done].
    + pose proof (measure_keeps_bits w reg r b s) as Hm.
      rewrite measure_eq, Hreg in Hm, Hread.
      destruct (match state s with Some _ => _ | None => _ end)
        as [[o post]|]; [|done].
      injection Hread as _ <-. by apply Hm.
    + by injection Hread as _ <-.
  - intros Hd%returns_none_ok Hr. rewrite discard_eq in Hd.
    destruct (context s !! reg) as [[q|b']|] eqn:Hreg; [| |done].
    + destruct (measure w reg s) as [[[]|e] s1] eqn:Hm; [|done].
      injection Hd as <-; simpl. left.
      rewrite lookup_delete_ne by congruence.
      by eapply measure_keeps_bits.
    + injection Hd as <-; simpl.
      destruct (decide (reg = r)) as [->|Hne].
      * right. rewrite lookup_delete_eq. eauto.
      * left. by rewrite lookup_delete_ne.
  - intros Hg%returns_none_ok Hr. left. rewrite gate_Diag_eq in Hg.
    destruct (diagonal_entries_ok _ _); [|done].
    by rewrite (gate_keeps_context _ _ _ _ _ _ Hg).
Qed.

Lemma bits_are_stable_witness :
  let s := mkSim 2 {[0 := QubitRegister 0; 1 := BitRegister true;
                     2 := QubitRegister 1]} (Some [false; false]) in
  ∃ s', measure () 0 s = (Ok tt, s') ∧ context s' !! 1 = Some (BitRegister true).
Proof.
  intros s.
  destruct (measure () 0 s) as [[[]|e] s'] eqn:Hm;
    [|vm_compute in Hm; discriminate].
  assert (exec (OpMeasure () 0) s = (Ok VNone, s')) as Hop.
  { simpl. unfold returns_none. by rewrite bind_eq, Hm. }
  destruct (bits_are_stable (OpMeasure () 0) VNone 1 true s s')
    as [Hkept|[_ [w Hw]]]; [done|exact Hop|reflexivity| |discriminate Hw].
  by exists s'.
Defined.

Lemma raise_cases {St Shot angle} `{!Backend St Shot angle}
    (op : Op Shot angle) (e : Exn) (s s' : Simulator St) :
  exec op s = (Raise e, s') →
  ((∃ m, e = UsageError m) ∧ s' = s) ∨
  e = BackendError ∨
  (∃ reg b, op = OpNewQubitFromBit reg ∧
            context s !! reg = Some (BitRegister b) ∧
            s' = mkSim (num_qubits s) (delete reg (context s)) (state s)).
Proof.
  intros Hop. destruct op; simpl in Hop.
  8-18,20-22: apply returns_none_raise in Hop;
    destruct (gate_raise_kind _ _ _ _ _ _ Hop) as [[m ->]| ->];
    [left; split; [eauto|exact (gate_raise_frame _ _ _ _ _ _ Hop)]
    |by right; left].
  - by apply returns_none_raise in Hop.
  - rewrite bind_eq, fresh_eq in Hop.
    destruct (fresh_loop_enough (S (size (context s))) (context s) 0)
      as [i Hi]; [lia|]. by rewrite Hi in Hop.
  - apply returns_none_raise in Hop. rewrite new_qubit_eq in Hop.
    destruct (context s !! reg); [injection Hop as <- <-; left; eauto|].
    simpl in Hop. destruct (state s) as [st|]; [|done].
    destruct (run_extend _ st bvalue); [done|].
    injection Hop as <- _. by right; left.
  - apply returns_none_raise in Hop. rewrite new_qubit_from_bit_eq in Hop.
    destruct (context s !! reg) as [[q|b]|] eqn:Hreg; injection Hop as <- <-;
      [left; eauto|right; right; eauto 10|left; eauto].
  - apply returns_none_raise in Hop. rewrite measure_eq in Hop.
    destruct (context s !! reg) as [[q|b]|];
      [|injection Hop as <- <-; left; eauto..].
    destruct (match state s with Some _ => _ | None => _ end) as [[o post]|];
      [done|]. injection Hop as <- _. by right; left.
  - rewrite bind_eq, read_eq in Hop.
    destruct (context s !! reg) as [[q|b]|]; simpl in Hop;
      [|done|injection Hop as <- <-; left; eauto].
    destruct (match state s with Some _ => _ | None => _ end) as [[o post]|];
      simpl in Hop; [done|]. injection Hop as <- _. by right; left.
  - apply returns_none_raise in Hop. rewrite discard_eq, measure_eq in Hop.
    destruct (context s !! reg) as [[q|b]|];
      [|done|injection Hop as <- <-; left; eauto].
    destruct (match state s with Some _ => _ | None => _ end) as [[o post]|];
      [done|]. injection Hop as <- _. by right; left.
  - apply returns_none_raise in Hop. rewrite gate_Diag_eq in Hop.
    destruct (diagonal_entries_ok _ _); [|injection Hop as <- _; by right; left].
    destruct (gate_raise_kind _ _ _ _ _ _ Hop) as [[m ->]| ->];
      [left; split; [eauto|exact (gate_raise_frame _ _ _ _ _ _ Hop)]
      |by right; left].
Qed.

(** X15. A caller that catches an exception and goes on still has a sound
    simulator when the exception is not a failure inside qiskit: after a
    call that raises [UsageError], or the [NameError] of
    [new_qubit_from_bit], the qubit indices are still exactly
    [0 .. num_qubits - 1] without repeats, the counter is still the number
    of qubit entries and the state is still absent only when the counter
    is 0. *)
Theorem exceptions_keep_indices_dense {St Shot angle} `{!Backend St Shot angle}
    (op : Op Shot angle) (e : Exn) (s s' : Simulator St) :
  (indices_exact s ∧ indices_distinct s ∧ counter_exact s) →
  state_absent_ok s →
  exec op s = (Raise e, s') →
  e ≠ BackendError →
  (indices_exact s' ∧ indices_distinct s' ∧ counter_exact s') ∧
  state_absent_ok s'.
Proof.
  intros Hd Ha Hop Hnot.
  destruct (raise_cases op e s s' Hop)
    as [[_ ->]|[->|(reg & b & _ & Hreg & ->)]]; [done|done|].
  split; [by eapply (dense_deleted s reg b)|done].
Qed.

Lemma exceptions_keep_indices_dense_witness :
  let s := mkSim 1 {[0 := QubitRegister 0; 1 := BitRegister true]} (Some [false]) in
  ∃ e s', exec (OpNewQubitFromBit 1) s = (Raise e, s') ∧
          indices_exact s' ∧ indices_distinct s' ∧ counter_exact s'.
Proof.
  intros s.
  destruct (exec (OpNewQubitFromBit 1) s) as [[v|e] s'] eqn:Hop;
    [vm_compute in Hop; discriminate|].
  assert (run [OpNewQubit 0 false; OpNewQubit 1 true; OpMeasure () 1]
            Classical.start = (Ok [VNone; VNone; VNone], s)) as Hrun
    by (vm_compute; reflexivity).
  destruct (run_consistent _ _ _ _ consistent_init Hrun) as [Hd Ha].
  destruct (exceptions_keep_indices_dense (OpNewQubitFromBit 1) e s s' Hd Ha Hop)
    as [Hd' _].
  - intros ->. vm_compute in Hop. discriminate.
  - exists e, s'. split; [reflexivity|exact Hd'].
Defined.
